(** * Mu-Simulation: hit tables, cut filter and run settings

    A shallow embedding of [include/analysis.hh] (the settings builders and
    the default ntuple schema) and of [src/tracking.cc] (the conversions of
    hit collections, generator particles and the extra block to columnar
    form), with the properties the specification states about them.

    Conventions.
    - [double] is IEEE binary64, here Rocq's primitive [float]; [>] and [<]
      are [PrimFloat.ltb] and [==] is [PrimFloat.eqb], so comparisons with a
      NaN are false as in C++.
    - [std::size_t] is 64 bits wide; sums of sizes wrap modulo [2^64].
    - [std::vector<T>] is [list T]; [push_back] appends at the end.
    - A call either returns, throws, or leaves defined behaviour (an
      unchecked [operator[]] outside the vector): see [outcome]. *)

From Stdlib Require Import ZArith NArith Lia Floats Ascii.
From stdpp Require Import base option list sorting strings gmap pretty.

Local Open Scope string_scope.
Local Open Scope list_scope.

(** ** Results of calls *)

Inductive exception := invalid_argument | out_of_range.

Inductive outcome (A : Type) :=
  | Returns (a : A)
  | Throws (e : exception)
  | Undefined.
Arguments Returns {A} a.
Arguments Throws {A} e.
Arguments Undefined {A}.

#[global] Instance outcome_ret : MRet outcome := @Returns.
#[global] Instance outcome_bind : MBind outcome := fun A B f m =>
  match m with
  | Returns a => f a
  | Throws e => Throws e
  | Undefined => Undefined
  end.

Definition returns {A} (m : outcome A) : Prop := exists a, m = Returns a.

(** [v[i]] on a [std::vector]: no bounds check. *)
Definition at_index {A} (v : list A) (i : nat) : outcome A :=
  match v !! i with
  | Some x => Returns x
  | None => Undefined
  end.

Definition push_back {A} (v : list A) (x : A) : list A := v ++ [x].

(** [for (std::size_t i = first; i < first + count; ++i) body], threading the
    variables the body writes to. *)
Fixpoint for_from {State} (first count : nat)
    (body : nat -> State -> outcome State) (s : State) : outcome State :=
  match count with
  | O => Returns s
  | S count' => s' ← body first s; for_from (S first) count' body s'
  end.

Definition for_range {State} (n : nat)
    (body : nat -> State -> outcome State) (s : State) : outcome State :=
  for_from 0 n body s.

(** ** Numbers *)

Abbreviation double := float.

(** Conversion of an integer to [double]: round to nearest, exact on every
    [int] and on every size below [2^53]. *)
Definition to_double (n : Z) : double :=
  SF2Prim (SpecFloat.binary_normalize prec emax n 0 false).

Definition size_t_max : N := 2 ^ 64.
Definition size_t_add (a b : N) : N := ((a + b) mod size_t_max)%N.

(** [std::to_string] on a [std::size_t]: the decimal digits. *)
Definition to_string (n : N) : string := pretty n.

(** ** include/analysis.hh *)

Module Analysis.

Record SimSetting := mkSimSetting { name : string; text : string }.

(** The two- and three-argument constructors. *)
Definition SimSetting2 (setting_name setting_text : string) : SimSetting :=
  mkSimSetting setting_name setting_text.
Definition SimSetting3 (prefix setting_name setting_text : string) : SimSetting :=
  mkSimSetting (prefix +:+ setting_name) setting_text.

Abbreviation SimSettingList := (list SimSetting).

Module detail.

Definition AddSetting (list : SimSettingList) (name text : string) : SimSettingList :=
  push_back list (SimSetting2 name text).

Definition AddSettingWithPrefix (list : SimSettingList) (prefix name text : string)
  : SimSettingList :=
  push_back list (SimSetting3 prefix name text).

(** The variadic overloads, on the pack of remaining (name, text) pairs. *)
Fixpoint AddSettings (list : SimSettingList) (name text : string)
    (rest : Datatypes.list (string * string)) : SimSettingList :=
  match rest with
  | [] => AddSetting list name text
  | (name', text') :: rest' => AddSettings (AddSetting list name text) name' text' rest'
  end.

Fixpoint AddSettingsWithPrefix (list : SimSettingList) (prefix name text : string)
    (rest : Datatypes.list (string * string)) : SimSettingList :=
  match rest with
  | [] => AddSettingWithPrefix list prefix name text
  | (name', text') :: rest' =>
      AddSettingsWithPrefix (AddSettingWithPrefix list prefix name text) prefix name' text' rest'
  end.

End detail.

Definition Settings_variadic (name text : string) (rest : list (string * string))
  : SimSettingList :=
  detail.AddSettings [] name text rest.

Definition Settings_variadic_prefix (prefix name text : string) (rest : list (string * string))
  : SimSettingList :=
  detail.AddSettingsWithPrefix [] prefix name text rest.

(** [Settings(names, texts)] *)
Definition Settings (names texts : list string) : outcome SimSettingList :=
  let name_count := length names in
  let text_count := length texts in
  if bool_decide (name_count ≠ text_count) || bool_decide (name_count = 0)
     || bool_decide (text_count = 0)
  then Returns []
  else
    for_range name_count (fun i out =>
      n ← at_index names i;
      t ← at_index texts i;
      Returns (detail.AddSetting out n t)) [].

(** [Settings(prefix, names, texts)] *)
Definition Settings_prefix (prefix : string) (names texts : list string)
  : outcome SimSettingList :=
  let name_count := length names in
  let text_count := length texts in
  if bool_decide (name_count ≠ text_count) || bool_decide (name_count = 0)
     || bool_decide (text_count = 0)
  then Returns []
  else
    for_range name_count (fun i out =>
      n ← at_index names i;
      t ← at_index texts i;
      Returns (detail.AddSettingWithPrefix out prefix n t)) [].

(** [IndexedSettings(name, texts, starting_index)] *)
Definition IndexedSettings (name : string) (texts : list string) (starting_index : N)
  : outcome SimSettingList :=
  let text_count := length texts in
  if bool_decide (text_count = 0)
  then Returns []
  else
    for_range text_count (fun i out =>
      t ← at_index texts i;
      Returns (detail.AddSetting out
                 (name +:+ to_string (size_t_add starting_index (N.of_nat i))) t)) [].

(** [IndexedSettings(prefix, name, texts, starting_index)] *)
Definition IndexedSettings_prefix (prefix name : string) (texts : list string)
    (starting_index : N) : outcome SimSettingList :=
  let text_count := length texts in
  if bool_decide (text_count = 0)
  then Returns []
  else
    for_range text_count (fun i out =>
      t ← at_index texts i;
      Returns (detail.AddSettingWithPrefix out prefix
                 (name +:+ to_string (size_t_add starting_index (N.of_nat i))) t)) [].

Module ROOT.

Abbreviation DataEntry := (list double).
Abbreviation DataEntryList := (list (list double)).
Abbreviation DataKey := string (only parsing).
Abbreviation DataKeyList := (list string).
Inductive DataKeyType := Single | Vector.
Abbreviation DataKeyTypeList := (list DataKeyType).

Definition DefaultDataKeyList : DataKeyList := [
  "NumHits";

  "Hit_energy"; "Hit_time"; "Hit_detId";
  "Hit_particlePdgId"; "Hit_G4TrackId"; "Hit_G4ParentTrackId";
  "Hit_x"; "Hit_y"; "Hit_z";
  "Hit_particleEnergy"; "Hit_particlePx"; "Hit_particlePy"; "Hit_particlePz";
  "Hit_weight";

  "NumGenParticles";

  "GenParticle_index"; "GenParticle_G4index"; "GenParticle_pdgid"; "GenParticle_status";
  "GenParticle_time"; "GenParticle_x"; "GenParticle_y"; "GenParticle_z";
  "GenParticle_energy"; "GenParticle_px"; "GenParticle_py"; "GenParticle_pz";
  "GenParticle_mo1"; "GenParticle_mo2"; "GenParticle_dau1"; "GenParticle_dau2";
  "GenParticle_mass"; "GenParticle_pt"; "GenParticle_eta"; "GenParticle_phi";

  "COSMIC_EVENT_ID";

  "COSMIC_CORE_X";
  "COSMIC_CORE_Y";

  "COSMIC_GEN_PRIMARY_ENERGY";
  "COSMIC_GEN_THETA";
  "COSMIC_GEN_PHI";
  "COSMIC_GEN_FIRST_HEIGHT";
  "COSMIC_GEN_ELECTRON_COUNT";
  "COSMIC_GEN_MUON_COUNT";
  "COSMIC_GEN_HADRON_COUNT";
  "COSMIC_GEN_PRIMARY_ID";

  "EXTRA_11"; "EXTRA_12"; "EXTRA_13"; "EXTRA_14"; "EXTRA_15"
].

Definition DefaultDataKeyTypeList : DataKeyTypeList := [
  Single;

  Vector; Vector; Vector; Vector; Vector; Vector; Vector;
  Vector; Vector; Vector; Vector; Vector; Vector; Vector;

  Single;

  Vector; Vector; Vector; Vector; Vector; Vector; Vector; Vector; Vector; Vector;
  Vector; Vector; Vector; Vector; Vector; Vector; Vector; Vector; Vector; Vector;

  Vector; Vector; Vector; Vector; Vector; Vector; Vector; Vector;
  Vector; Vector; Vector; Vector; Vector; Vector; Vector; Vector
].

End ROOT.

End Analysis.

(** ** include/tracking.hh, src/tracking.cc *)

Module Tracking.

Import Analysis.ROOT.

Local Open Scope float_scope.

(** [G4LorentzVector] (CLHEP's [HepLorentzVector]): three space components
    and the time component, the latter also read as the energy. *)
Record G4LorentzVector := mkLorentzVector {
  x : double; y : double; z : double; t : double
}.
Definition e (v : G4LorentzVector) : double := t v.
Definition px (v : G4LorentzVector) : double := x v.
Definition py (v : G4LorentzVector) : double := y v.
Definition pz (v : G4LorentzVector) : double := z v.

(** What a [Hit] reads of its [G4ParticleDefinition]. *)
Record G4ParticleDefinition := mkParticleDefinition {
  ParticleName : string;
  PDGEncoding : Z
}.

Record Hit := mkHit {
  _particle : G4ParticleDefinition;
  _trackID : Z;
  _parentID : Z;
  _chamberID : string;
  _deposit : double;
  _position : G4LorentzVector;
  _momentum : G4LorentzVector
}.

Definition GetParticleName (hit : Hit) : string := ParticleName (_particle hit).
Definition GetPDGEncoding (hit : Hit) : Z := PDGEncoding (_particle hit).
Definition GetTrackID (hit : Hit) : Z := _trackID hit.
Definition GetParentID (hit : Hit) : Z := _parentID hit.
Definition GetChamberID (hit : Hit) : string := _chamberID hit.
Definition GetDeposit (hit : Hit) : double := _deposit hit.
Definition GetPosition (hit : Hit) : G4LorentzVector := _position hit.
Definition GetMomentum (hit : Hit) : G4LorentzVector := _momentum hit.

(** [G4THitsCollection<Hit>]: the hits of one event, in insertion order. *)
Abbreviation HitCollection := (list Hit).
Definition GetSize (collection : HitCollection) : nat := length collection.
Definition GetHit (collection : HitCollection) (i : nat) : outcome Hit :=
  at_index collection i.

Abbreviation NameToDataMap := (gmap string double).

(** [out[j].push_back(value)] *)
Definition push_at (out : DataEntryList) (j : nat) (value : double)
  : outcome DataEntryList :=
  entry ← at_index out j;
  mret (<[j := push_back entry value]> out).

(** The first loop of every conversion: [column_count] empty entries.
    ([reserve] changes the capacity only.) *)
Definition empty_columns (column_count : nat) : outcome DataEntryList :=
  for_range column_count (fun _ out => mret (push_back out ([] : DataEntry))) [].

(** The fourteen [push_back]s made for one hit; the body of the hit loop of
    [_convert_to_analysis] and, line for line, of [_convert_to_cut_analysis]. *)
Definition push_hit (name_map : string -> outcome double) (hit : Hit)
    (out : DataEntryList) : outcome DataEntryList :=
  out ← push_at out 0 (GetDeposit hit);
  out ← push_at out 1 (t (GetPosition hit));
  chamber ← name_map (GetChamberID hit);
  out ← push_at out 2 chamber;
  out ← push_at out 3 (to_double (GetPDGEncoding hit));
  out ← push_at out 4 (to_double (GetTrackID hit));
  out ← push_at out 5 (to_double (GetParentID hit));
  out ← push_at out 6 (x (GetPosition hit));
  out ← push_at out 7 (y (GetPosition hit));
  out ← push_at out 8 (z (GetPosition hit));
  out ← push_at out 9 (e (GetMomentum hit));
  out ← push_at out 10 (px (GetMomentum hit));
  out ← push_at out 11 (py (GetMomentum hit));
  out ← push_at out 12 (pz (GetMomentum hit));
  push_at out 13 (to_double 1).

Definition _convert_to_analysis (collection : HitCollection)
    (name_map : string -> outcome double) : outcome DataEntryList :=
  let column_count := 14%nat in
  let size := GetSize collection in
  out ← empty_columns column_count;
  for_range size (fun i out =>
    hit ← GetHit collection i;
    push_hit name_map hit out) out.

(** [std::sort] with [operator<], by insertion. The vector sorted below holds
    converted indices only, which [<] orders totally, so the ascending
    arrangement is the same whatever the algorithm
    ([sort_arrangement_unique]). *)
Fixpoint sort_insert (v : double) (l : list double) : list double :=
  match l with
  | [] => [v]
  | w :: l' => if v <? w then v :: w :: l' else w :: sort_insert v l'
  end.

Definition sort (l : list double) : list double := foldr sort_insert [] l.

(** [std::unique] followed by [erase]: of each run of [==] elements the
    first one stays. *)
Fixpoint unique_after (kept : double) (l : list double) : list double :=
  match l with
  | [] => []
  | v :: l' => if kept =? v then unique_after kept l' else v :: unique_after v l'
  end.

Definition unique (l : list double) : list double :=
  match l with
  | [] => []
  | v :: l' => v :: unique_after v l'
  end.

(** [y > layer_bounds[k][0] && y < layer_bounds[k][1]], the right operand
    evaluated only when the left one holds. *)
Definition in_layer (hit : Hit) (layer_bounds : list (list double)) (k : nat)
  : outcome bool :=
  bounds ← at_index layer_bounds k;
  lower ← at_index bounds 0;
  if lower <? y (GetPosition hit)
  then upper ← at_index bounds 1; mret (y (GetPosition hit) <? upper)
  else mret false.

(** The test a hit passes before its layers are looked up. *)
Definition passes_cut (hit : Hit) : bool :=
  (0 <? py (GetMomentum hit)) && (0.5 <? GetDeposit hit)
  && (7000 <? y (GetPosition hit)).

Definition collect_layers (collection : HitCollection) (layer_bounds : list (list double))
  : outcome (list double) :=
  for_range (GetSize collection) (fun i tracker_layers =>
    hit ← GetHit collection i;
    if passes_cut hit
    then
      for_range (length layer_bounds) (fun k tracker_layers =>
        inside ← in_layer hit layer_bounds k;
        if inside : bool
        then mret (push_back tracker_layers (to_double (Z.of_nat k)))
        else mret tracker_layers) tracker_layers
    else mret tracker_layers) [].

Definition _convert_to_cut_analysis (collection : HitCollection)
    (layer_bounds : list (list double)) (name_map : string -> outcome double)
  : outcome DataEntryList :=
  let column_count := 14%nat in
  let size := GetSize collection in
  out ← empty_columns column_count;
  tracker_layers ← collect_layers collection layer_bounds;
  let tracker_layers := unique (sort tracker_layers) in
  if bool_decide (3 ≤ length tracker_layers)%nat
  then
    for_range size (fun i out =>
      hit ← GetHit collection i;
      push_hit name_map hit out) out
  else mret out.

(** [ConvertToAnalysis(collection, map)] *)
Definition ConvertToAnalysis_map (collection : HitCollection) (map : NameToDataMap)
  : outcome DataEntryList :=
  _convert_to_analysis collection (fun id =>
    let search := map !! id in
    mret (match search with Some second => second | None => to_double (-1) end)).

(** [ConvertToAnalysis(extra)] *)
Definition ConvertToAnalysis_extra (extra : list (list double)) : outcome DataEntryList :=
  let column_count := 16%nat in
  out ← for_range column_count (fun i out =>
           extra_i ← at_index extra i;
           mret (push_back out ([] : DataEntry))) [];
  for_range column_count (fun i out =>
    extra_i ← at_index extra i;
    for_range (length extra_i) (fun index out =>
      value ← at_index extra_i index;
      push_at out i value) out) out.

Definition EmptyExtra : list (list double) :=
  [[]; []; []; []; []; []; []; []; []; []; []; []; []; []; []; []].

Section Parsing.

(** [std::stold] followed by the conversion of its [long double] to [double];
    it throws on a string that holds no number. *)
Variable stold : string -> outcome double.

(** [ConvertToAnalysis(collection)] *)
Definition ConvertToAnalysis_hits (collection : HitCollection) : outcome DataEntryList :=
  _convert_to_analysis collection (fun id => stold id).

(** [ConvertToAnalysis(collection, layer_bounds, savecut)] *)
Definition ConvertToAnalysis_cut (collection : HitCollection)
    (layer_bounds : list (list double)) (savecut : bool) : outcome DataEntryList :=
  if savecut
  then _convert_to_cut_analysis collection layer_bounds (fun id => stold id)
  else _convert_to_analysis collection (fun id => stold id).

End Parsing.

(** Modelled from the spec: the four-vector of [Physics::GenParticle]
    (its declaration, in [physics/Particle.hh], is missing); the components
    are stored, the derived quantities are parameters of the conversion. *)
Record Vec4 := mkVec4 {
  vec_px : double; vec_py : double; vec_pz : double; vec_e : double
}.

(** Modelled from the spec: [Physics::GenParticle] (declared in
    [physics/Particle.hh], which is missing), with the members
    [ConvertToAnalysis] reads: indices and codes are integers, the mass a
    [double]. *)
Record GenParticle := mkGenParticle {
  index : Z;
  G4index : Z;
  pdgid : Z;
  status : Z;
  vertex : Vec4;
  mom : Vec4;
  moid1 : Z;
  moid2 : Z;
  dau1 : Z;
  dau2 : Z;
  m : double
}.

Abbreviation GenParticleVector := (list GenParticle).

Section Particles.

(** Transverse momentum, pseudorapidity and azimuth of a four-vector. *)
Variables pT eta phi : Vec4 -> double.

Definition push_particle (particle : GenParticle) (out : DataEntryList)
  : outcome DataEntryList :=
  out ← push_at out 0 (to_double (index particle));
  out ← push_at out 1 (to_double (G4index particle));
  out ← push_at out 2 (to_double (pdgid particle));
  out ← push_at out 3 (to_double (status particle));
  out ← push_at out 4 (vec_e (vertex particle));
  out ← push_at out 5 (vec_px (vertex particle));
  out ← push_at out 6 (vec_py (vertex particle));
  out ← push_at out 7 (vec_pz (vertex particle));
  out ← push_at out 8 (vec_e (mom particle));
  out ← push_at out 9 (vec_px (mom particle));
  out ← push_at out 10 (vec_py (mom particle));
  out ← push_at out 11 (vec_pz (mom particle));
  out ← push_at out 12 (to_double (moid1 particle));
  out ← push_at out 13 (to_double (moid2 particle));
  out ← push_at out 14 (to_double (dau1 particle));
  out ← push_at out 15 (to_double (dau2 particle));
  out ← push_at out 16 (m particle);
  out ← push_at out 17 (pT (mom particle));
  out ← push_at out 18 (eta (mom particle));
  push_at out 19 (phi (mom particle)).

(** [ConvertToAnalysis(particles, saveall)] *)
Definition ConvertToAnalysis_particles (particles : GenParticleVector) (saveall : bool)
  : outcome DataEntryList :=
  pvec ← for_range (length particles) (fun index pvec =>
            particle ← at_index particles index;
            if saveall || bool_decide (0 ≤ G4index particle)%Z
            then mret (push_back pvec particle)
            else mret pvec) [];
  let column_count := 20%nat in
  let size := length pvec in
  out ← empty_columns column_count;
  for_range size (fun index out =>
    particle ← at_index pvec index;
    push_particle particle out) out.

End Particles.

End Tracking.

(** ** src/tracking.cc: primaries of an event *)

Module Primaries.

Import Analysis.ROOT.

Local Open Scope float_scope.

(** What the conversion reads of Geant4's [G4ThreeVector],
    [G4PrimaryParticle], [G4PrimaryVertex] and [G4Event]: an event holds its
    primary vertices and a vertex its primary particles, both in order. *)
Record G4ThreeVector := mkThreeVector { x : double; y : double; z : double }.

Record G4PrimaryParticle := mkPrimaryParticle {
  PDGcode : Z;
  TrackID : Z;
  TotalEnergy : double;
  Momentum : G4ThreeVector
}.

Record G4PrimaryVertex := mkPrimaryVertex {
  T0 : double; X0 : double; Y0 : double; Z0 : double;
  primaries : list G4PrimaryParticle
}.

Abbreviation G4Event := (list G4PrimaryVertex).

Definition GetNumberOfParticle (vertex : G4PrimaryVertex) : nat :=
  length (primaries vertex).
Definition GetPrimary (vertex : G4PrimaryVertex) (j : nat) : outcome G4PrimaryParticle :=
  at_index (primaries vertex) j.
Definition GetNumberOfPrimaryVertex (event : G4Event) : nat := length event.
Definition GetPrimaryVertex (event : G4Event) (i : nat) : outcome G4PrimaryVertex :=
  at_index event i.

Section Units.

(** The constants of [physics/Units.hh], which is missing. *)
Variables Units_Time Units_Length Units_Energy Units_Momentum : double.

(** The twelve [push_back]s made for one primary. *)
Definition push_primary (vertex : G4PrimaryVertex) (primary : G4PrimaryParticle)
    (out : DataEntryList) : outcome DataEntryList :=
  out ← Tracking.push_at out 0 (to_double (PDGcode primary));
  out ← Tracking.push_at out 1 (to_double (TrackID primary));
  out ← Tracking.push_at out 2 (to_double 0);
  out ← Tracking.push_at out 3 (T0 vertex / Units_Time);
  out ← Tracking.push_at out 4 (X0 vertex / Units_Length);
  out ← Tracking.push_at out 5 (Y0 vertex / Units_Length);
  out ← Tracking.push_at out 6 (Z0 vertex / Units_Length);
  out ← Tracking.push_at out 7 (TotalEnergy primary / Units_Energy);
  let momentum := Momentum primary in
  out ← Tracking.push_at out 8 (x momentum / Units_Momentum);
  out ← Tracking.push_at out 9 (y momentum / Units_Momentum);
  out ← Tracking.push_at out 10 (z momentum / Units_Momentum);
  Tracking.push_at out 11 (to_double 1).

(** [ConvertToAnalysis(event)] *)
Definition ConvertToAnalysis_event (event : G4Event) : outcome DataEntryList :=
  let column_count := 12%nat in
  let vertex_count := GetNumberOfPrimaryVertex event in
  size ← for_range vertex_count (fun i size =>
            vertex ← GetPrimaryVertex event i;
            mret (size_t_add size (N.of_nat (GetNumberOfParticle vertex)))) 0%N;
  out ← Tracking.empty_columns column_count;
  for_range vertex_count (fun i out =>
    vertex ← GetPrimaryVertex event i;
    let vertex_size := GetNumberOfParticle vertex in
    for_range vertex_size (fun j out =>
      primary ← GetPrimary vertex j;
      push_primary vertex primary out) out) out.

End Units.

End Primaries.

(** ** src/tracking.cc: the header of a printed hit collection *)

Module Rendering.

(** [std::to_string] on an [int]. *)
Definition to_string_int (n : Z) : string := pretty n.

(** [std::string(n, c)] *)
Fixpoint string_of_copies (n : nat) (c : Ascii.ascii) : string :=
  match n with
  | O => ""
  | S n' => String c (string_of_copies n' c)
  end.

(** The line feed of the literals below. *)
Definition LF : string := String "010"%char "".

(** The [boxside] and [box] of [operator<<] on a hit collection, for the id
    of the current event and the number of hits. *)
Definition boxside (event_id : Z) (count : N) : string :=
  string_of_copies (25 + String.length (to_string_int event_id)
                       + String.length (to_string count)) "-"%char.

Definition box (event_id : Z) (count : N) : string :=
  ((((((boxside event_id count
        +:+ (LF +:+ "| Event: ")) +:+ to_string_int event_id)
        +:+ " | Hit Count: ") +:+ to_string count)
        +:+ (" |" +:+ LF)) +:+ boxside event_id count)
        +:+ LF.

(** What [operator<<] has written to [os] when it reaches the loop over the
    hits; with no hit it returns [os] as it is. *)
Definition write_header (event_id : Z) (count : N) (os : string) : string :=
  if bool_decide (count = 0%N) then os
  else (os +:+ (LF +:+ LF)) +:+ box event_id count.

End Rendering.

(** ** src/tracking.cc: printing a vector *)

Module Printing.

Definition size_t_sub (a b : N) : N := ((a + size_t_max - b) mod size_t_max)%N.

Section Stream.

(** [os << value] for a [double], in the format the stream is in. *)
Variable show : double -> string.

(** [operator<<] on a [std::vector<double>]; [os] is what the stream holds.
    The index is an [int] and is compared with, and incremented up to, the
    size of the vector: with [2^31] elements or more the increment leaves
    the range of [int]. *)
Definition print_vector (os : string) (v : list double) : outcome string :=
  if bool_decide (2 ^ 31 <= N.of_nat (length v))%N then Undefined
  else
    let os := os +:+ "[" in
    os ← for_range (length v) (fun i os =>
            value ← at_index v i;
            let os := os +:+ show value in
            if bool_decide (N.of_nat i ≠ size_t_sub (N.of_nat (length v)) 1)
            then mret (os +:+ ", ")
            else mret os) os;
    mret (os +:+ ("]" +:+ Rendering.LF)).

End Stream.

End Printing.

(** ** src/geometry/Cavern.cc *)

Module Cavern.

Local Open Scope float_scope.

Definition _between (min_layer max_layer target : double) : bool :=
  (min_layer <? target) && (target <? max_layer).

End Cavern.

(** * What the conversions are compared with *)

(** ** The schema by blocks *)

Module SchemaSpec.

Import Analysis.ROOT.

(** The blocks of the default schema, by the prefix of their keys. *)
Definition hit_block : DataKeyList :=
  (fun k => "Hit_" +:+ k) <$>
  ["energy"; "time"; "detId"; "particlePdgId"; "G4TrackId"; "G4ParentTrackId";
   "x"; "y"; "z"; "particleEnergy"; "particlePx"; "particlePy"; "particlePz"; "weight"].

Definition gen_particle_block : DataKeyList :=
  (fun k => "GenParticle_" +:+ k) <$>
  ["index"; "G4index"; "pdgid"; "status"; "time"; "x"; "y"; "z";
   "energy"; "px"; "py"; "pz"; "mo1"; "mo2"; "dau1"; "dau2";
   "mass"; "pt"; "eta"; "phi"].

Definition cosmic_block : DataKeyList :=
  (fun k => "COSMIC_" +:+ k) <$>
  ["EVENT_ID"; "CORE_X"; "CORE_Y"; "GEN_PRIMARY_ENERGY"; "GEN_THETA"; "GEN_PHI";
   "GEN_FIRST_HEIGHT"; "GEN_ELECTRON_COUNT"; "GEN_MUON_COUNT"; "GEN_HADRON_COUNT";
   "GEN_PRIMARY_ID"].

Definition extra_block : DataKeyList :=
  (fun k => "EXTRA_" +:+ k) <$> ["11"; "12"; "13"; "14"; "15"].

End SchemaSpec.

(** ** Settings *)

Module SettingsSpec.

Import Analysis.

(** The reading of C8 without the width of [std::size_t]: the name at
    position [i] carries the digits of the unbounded sum. *)
Definition IndexedSettings_unbounded (name : string) (texts : list string)
    (starting_index : N) : Prop :=
  IndexedSettings name texts starting_index
  = Returns (imap (fun i t =>
      SimSetting2 (name +:+ to_string (starting_index + N.of_nat i)) t) texts).

End SettingsSpec.

(** ** Prefixed settings *)

Module PrefixSpec.

Import Analysis.

(** A setting with [prefix] put before its name. *)
Definition with_prefix (prefix : string) (setting : SimSetting) : SimSetting :=
  {| name := prefix +:+ name setting; text := text setting |}.

(** A builder applied to what another builder returns. *)
Definition then_map (f : SimSetting -> SimSetting) (m : outcome SimSettingList)
  : outcome SimSettingList :=
  match m with
  | Returns out => Returns (f <$> out)
  | Throws exn => Throws exn
  | Undefined => Undefined
  end.

End PrefixSpec.

(** ** Tables by rows *)

Module Tables.

Import Analysis.ROOT Tracking.

Local Open Scope float_scope.

Arguments to_double : simpl never.

(** A table given by its rows: column [j] holds the [j]-th value of every
    row, in row order. *)
Definition table (column_count : nat) (rows : list (list double)) : DataEntryList :=
  (fun j => (fun row => nth j row 0) <$> rows) <$> seq 0 column_count.

(** Row [i] of a table: the [i]-th value of every column, in column order. *)
Definition row_of (out : DataEntryList) (i : nat) : list (option double) :=
  (fun column : DataEntry => column !! i) <$> out.

(** The value of column [j] in row [i]. *)
Definition cell (out : DataEntryList) (j i : nat) : option double :=
  column ← out !! j; (column : DataEntry) !! i.

(** The row of a hit, [chamber] being the number its chamber id maps to. *)
Definition hit_row (chamber : double) (hit : Hit) : list double :=
  [ GetDeposit hit; t (GetPosition hit); chamber;
    to_double (GetPDGEncoding hit); to_double (GetTrackID hit);
    to_double (GetParentID hit);
    x (GetPosition hit); y (GetPosition hit); z (GetPosition hit);
    e (GetMomentum hit); px (GetMomentum hit); py (GetMomentum hit);
    pz (GetMomentum hit);
    1 ].

Definition hit_table (numeric : string -> double) (collection : HitCollection)
  : DataEntryList :=
  table 14 ((fun hit => hit_row (numeric (GetChamberID hit)) hit) <$> collection).

(** The mapping of [ConvertToAnalysis(collection, map)]. *)
Definition lookup_or_minus_1 (map : NameToDataMap) (id : string) : double :=
  match map !! id with Some second => second | None => to_double (-1) end.

Section ParticleRow.

(** Transverse momentum, pseudorapidity and azimuth of a four-vector. *)
Variables pT eta phi : Vec4 -> double.

Definition particle_row (particle : GenParticle) : list double :=
  [ to_double (index particle); to_double (G4index particle);
    to_double (pdgid particle); to_double (status particle);
    vec_e (vertex particle); vec_px (vertex particle);
    vec_py (vertex particle); vec_pz (vertex particle);
    vec_e (mom particle); vec_px (mom particle);
    vec_py (mom particle); vec_pz (mom particle);
    to_double (moid1 particle); to_double (moid2 particle);
    to_double (dau1 particle); to_double (dau2 particle);
    m particle;
    pT (mom particle); eta (mom particle); phi (mom particle) ].

End ParticleRow.

(** The particles handed on to the transport. *)
Definition transported (particles : GenParticleVector) : GenParticleVector :=
  filter (fun particle => (0 ≤ G4index particle)%Z) particles.

Definition selected (saveall : bool) (particles : GenParticleVector) : GenParticleVector :=
  if saveall then particles else transported particles.

End Tables.

(** ** Integers as doubles *)

Module Doubles.

Import SpecFloat.

Local Open Scope Z_scope.

(** The mantissa and exponent binary64 gives a positive integer below
    [2^53]: the integer shifted left until it has 53 digits. *)
Definition mantissa (p : positive) : positive :=
  fst (shl_align p 0 (Z.pos (digits2_pos p) - 53)).

Definition exponent (p : positive) : Z := Z.pos (digits2_pos p) - 53.

Definition SF_of_index (n : Z) : spec_float :=
  match n with
  | Z.pos p => S754_finite false (mantissa p) (exponent p)
  | _ => S754_zero false
  end.

End Doubles.

(** ** Layers *)

Module Cut.

Import Analysis.ROOT Tracking.

Local Open Scope float_scope.

(** The index of a layer as it is stored in [tracker_layers]. *)
Definition index_double (k : nat) : double := to_double (Z.of_nat k).

Arguments index_double : simpl never.

(** [v] lies strictly inside the interval [[min, max]]. *)
Definition strictly_inside (v : double) (bounds : list double) : bool :=
  match bounds with
  | lower :: upper :: _ => (lower <? v) && (v <? upper)
  | _ => false
  end.

(** The hit has momentum-py > 0, deposit > 0.5 and position-y > 7000, and
    its position-y lies strictly inside interval [k]. *)
Definition reaches (layer_bounds : list (list double)) (hit : Hit) (k : nat) : bool :=
  (0 <? py (GetMomentum hit)) && (0.5 <? GetDeposit hit)
  && (7000 <? y (GetPosition hit))
  && match layer_bounds !! k with
     | Some bounds => strictly_inside (y (GetPosition hit)) bounds
     | None => false
     end.

(** The distinct interval indices some hit of the collection reaches, in
    ascending order. *)
Definition layers_reached (collection : HitCollection) (layer_bounds : list (list double))
  : list nat :=
  filter (fun k => Exists (fun hit => reaches layer_bounds hit k = true) collection)
    (seq 0 (length layer_bounds)).

(** Every entry of the list of bounds is an interval [[min, max]]. *)
Definition intervals (layer_bounds : list (list double)) : Prop :=
  Forall (fun bounds : list double => (2 <= length bounds)%nat) layer_bounds.

(** The conversion to [double] keeps the indices below [n] apart and in
    order. *)
Definition index_exact (n : nat) : Prop :=
  forall a b, (a < n)%nat -> (b < n)%nat ->
    (index_double a <? index_double b) = (a <? b)%nat
    ∧ (index_double a =? index_double b) = (a =? b)%nat.

(** The indices pushed for one hit, in the order of the pushes. *)
Definition hit_layers (layer_bounds : list (list double)) (hit : Hit) : list nat :=
  filter (fun k => reaches layer_bounds hit k = true) (seq 0 (length layer_bounds)).

(** [sort] and [unique] on indices before their conversion. *)
Fixpoint index_insert (v : nat) (l : list nat) : list nat :=
  match l with
  | [] => [v]
  | w :: l' => if (v <? w)%nat then v :: w :: l' else w :: index_insert v l'
  end.

Definition index_sort (l : list nat) : list nat := foldr index_insert [] l.

Fixpoint index_unique_after (kept : nat) (l : list nat) : list nat :=
  match l with
  | [] => []
  | v :: l' =>
      if (kept =? v)%nat then index_unique_after kept l' else v :: index_unique_after v l'
  end.

Definition index_unique (l : list nat) : list nat :=
  match l with
  | [] => []
  | v :: l' => v :: index_unique_after v l'
  end.

(** What [std::sort] leaves of [input]: the same elements, none before a
    smaller one. *)
Definition sorted_arrangement (input output : list double) : Prop :=
  output ≡ₚ input ∧ Sorted (fun v w => (w <? v) = false) output.

End Cut.

(** ** Rows of primaries, and what the cut reads *)

Module MoreSpec.

Import Analysis.ROOT Tracking Primaries.

Local Open Scope float_scope.

Section Units.

Variables Units_Time Units_Length Units_Energy Units_Momentum : double.

(** The row of a primary of a vertex. *)
Definition primary_row (vertex : G4PrimaryVertex) (primary : G4PrimaryParticle)
  : list double :=
  [ to_double (PDGcode primary); to_double (TrackID primary); 0;
    T0 vertex / Units_Time;
    X0 vertex / Units_Length; Y0 vertex / Units_Length; Z0 vertex / Units_Length;
    TotalEnergy primary / Units_Energy;
    Primaries.x (Momentum primary) / Units_Momentum;
    Primaries.y (Momentum primary) / Units_Momentum;
    Primaries.z (Momentum primary) / Units_Momentum;
    1 ].

(** The rows of an event: vertex by vertex, and primary by primary within a
    vertex. *)
Definition primary_rows (event : G4Event) : list (list double) :=
  event ≫= fun vertex => primary_row vertex <$> primaries vertex.

End Units.

(** The hits that pass the test of the cut. *)
Definition passing (collection : HitCollection) : HitCollection :=
  filter (fun hit => passes_cut hit = true) collection.

(** Reading the two bounds of this entry for this hit leaves the entry: it
    is empty, or it has one value and that one is below the hit. *)
Definition reads_past (hit : Hit) (bounds : list double) : Prop :=
  match bounds with
  | [] => True
  | [lower] => (lower <? Tracking.y (GetPosition hit)) = true
  | _ => False
  end.

(** No two of the intervals overlap. *)
Definition disjoint_layers (layer_bounds : list (list double)) : Prop :=
  forall i j lower upper rest lower' upper' rest',
    i ≠ j ->
    layer_bounds !! i = Some (lower :: upper :: rest) ->
    layer_bounds !! j = Some (lower' :: upper' :: rest') ->
    (lower <? upper') = false ∨ (lower' <? upper) = false.

(** The strings of a list with [", "] between them, and with [", "] behind
    each of them. *)
Fixpoint joined (l : list string) : string :=
  match l with
  | [] => ""
  | [s] => s
  | s :: l' => s +:+ ", " +:+ joined l'
  end.

Fixpoint separated (l : list string) : string :=
  match l with
  | [] => ""
  | s :: l' => s +:+ ", " +:+ separated l'
  end.

(** The title line of the header box. *)
Definition title (event_id : Z) (count : N) : string :=
  "| Event: " +:+ Rendering.to_string_int event_id
  +:+ " | Hit Count: " +:+ to_string count +:+ " |".

End MoreSpec.

(** ** Sample data *)

Module Samples.

Import Analysis.ROOT Tracking.

Local Open Scope float_scope.

Definition sample_position (height : double) : G4LorentzVector :=
  {| x := 1; y := height; z := 2; t := 3 |}.

Definition sample_hit (chamber : string) (deposit height : double) : Hit :=
  {| _particle := {| ParticleName := "mu-"; PDGEncoding := 13 |};
     _trackID := 1; _parentID := 0; _chamberID := chamber; _deposit := deposit;
     _position := sample_position height;
     _momentum := {| x := 0.25; y := 4; z := 0.5; t := 5 |} |}.

Definition sample_map : NameToDataMap := {[ "1" := 1; "2" := 2; "3" := 3 ]}.

(** The parser on the chamber ids of the examples. *)
Definition sample_stold (id : string) : outcome double :=
  match sample_map !! id with
  | Some value => Returns value
  | None => Throws invalid_argument
  end.

Definition sample_bounds : list (list double) :=
  [[7000; 7010]; [7010; 7020]; [7020; 7030]].

(** Two hits in the first two layers, one that fails the cut, and a hit in
    the third layer. *)
Definition two_layers : HitCollection :=
  [sample_hit "1" 0.75 7005; sample_hit "2" 0.75 7015; sample_hit "3" 0.25 7025].

Definition third_layer : Hit := sample_hit "3" 0.75 7025.

(** The layer bounds of the example of C2. *)
Definition example_bounds : list (list double) := [[0; 10]; [10; 20]; [20; 30]].

Definition sample_extra : list (list double) :=
  [[1; 2; 3]; []; [4]; []; []; []; []; [5; 6]; []; []; []; []; []; []; []; [7]; [8; 9]].

End Samples.

(** * Properties *)

(** ** Loops *)

Lemma bind_Returns {A B} (a : A) (f : A -> outcome B) : Returns a ≫= f = f a.
Proof. reflexivity. Qed.

Lemma at_index_Some {A} (v : list A) (i : nat) (a : A) :
  v !! i = Some a -> at_index v i = Returns a.
Proof. unfold at_index. by intros ->. Qed.

Lemma at_index_None {A} (v : list A) (i : nat) :
  length v <= i -> at_index v i = Undefined.
Proof. unfold at_index. intros H. by rewrite (lookup_ge_None_2 v i). Qed.

Section Loops.

Context {State : Type}.
Implicit Types (body : nat -> State -> outcome State) (inv : nat -> State -> Prop).

(** The loop rule: an invariant kept by every iteration, each of which
    returns, holds when the loop is left, and the loop returns. *)
Lemma for_from_invariant inv first count body (s : State) :
  inv first s ->
  (forall i s', first <= i < first + count -> inv i s' ->
     exists s'', body i s' = Returns s'' /\ inv (S i) s'') ->
  exists s', for_from first count body s = Returns s' /\ inv (first + count) s'.
Proof.
  revert first s; induction count as [|count IH]; intros first s Hinv Hstep; simpl.
  - exists s. by rewrite Nat.add_0_r.
  - destruct (Hstep first s) as (s1 & -> & Hinv1); [lia|done|]. simpl.
    destruct (IH (S first) s1) as (s2 & Hrun & Hinv2); [done| |].
    + intros i s' Hi. apply Hstep. lia.
    + exists s2. split; [done|].
      by replace (first + S count) with (S first + count) by lia.
Qed.

Lemma for_from_app first count count' body (s : State) :
  for_from first (count + count') body s
  = for_from first count body s ≫= for_from (first + count) count' body.
Proof.
  revert first s; induction count as [|count IH]; intros first s; simpl.
  - by rewrite Nat.add_0_r.
  - destruct (body first s) as [s'| |]; simpl; [|done..].
    rewrite IH. by replace (S first + count) with (first + S count) by lia.
Qed.

Lemma for_range_invariant inv n body (s : State) :
  inv 0 s ->
  (forall i s', i < n -> inv i s' ->
     exists s'', body i s' = Returns s'' /\ inv (S i) s'') ->
  exists s', for_range n body s = Returns s' /\ inv n s'.
Proof.
  intros Hinv Hstep. apply (for_from_invariant inv 0 n); [done|].
  intros i s' Hi. apply Hstep. lia.
Qed.

(** A loop whose iteration [j] does not return, the earlier ones returning,
    ends the way that iteration does. *)
Lemma for_from_fails first count body (s : State) j (failure : outcome State) :
  (forall s', failure <> Returns s') ->
  first <= j < first + count ->
  (forall i s', first <= i < j -> returns (body i s')) ->
  (forall s', body j s' = failure) ->
  for_from first count body s = failure.
Proof.
  intros Hfailure.
  revert first s; induction count as [|count IH]; intros first s Hj Hbefore Hat; [lia|].
  simpl. destruct (decide (first = j)) as [->|Hne].
  - rewrite Hat. by destruct failure as [s'| |]; [destruct (Hfailure s')| |].
  - destruct (Hbefore first s) as [s1 ->]; [lia|]. simpl.
    apply IH; [lia| |done]. intros i s' Hi. apply Hbefore. lia.
Qed.

Lemma for_range_fails n body (s : State) j (failure : outcome State) :
  (forall s', failure <> Returns s') ->
  j < n ->
  (forall i s', i < j -> returns (body i s')) ->
  (forall s', body j s' = failure) ->
  for_range n body s = failure.
Proof.
  intros Hfailure Hj Hbefore Hat.
  apply (for_from_fails 0 n body s j); [done|lia| |done].
  intros i s' Hi. apply Hbefore. lia.
Qed.

End Loops.

(** ** Settings *)

Module SettingsFacts.

Import Analysis Analysis.detail SettingsSpec.

Lemma Settings_loop (names texts : list string) :
  length names = length texts ->
  for_range (length names) (fun i out =>
      n ← at_index names i;
      t ← at_index texts i;
      Returns (AddSetting out n t)) []
  = Returns (zip_with SimSetting2 names texts).
Proof.
  intros Hlen.
  destruct (for_range_invariant
    (fun i out => out = zip_with SimSetting2 (take i names) (take i texts))
    (length names)
    (fun i out => n ← at_index names i; t ← at_index texts i;
                  Returns (AddSetting out n t)) []) as (out & Hrun & ->);
    [| |by rewrite firstn_all, (take_ge texts) in Hrun by lia].
  - done.
  - intros i out Hi ->.
    destruct (lookup_lt_is_Some_2 names i) as [n Hn]; [done|].
    destruct (lookup_lt_is_Some_2 texts i) as [t Ht]; [lia|].
    rewrite (at_index_Some _ _ _ Hn), (at_index_Some _ _ _ Ht). simpl.
    eexists; split; [done|].
    rewrite (take_S_r _ _ _ Hn), (take_S_r _ _ _ Ht).
    rewrite zip_with_app by (rewrite !length_take; lia). done.
Qed.

Lemma IndexedSettings_loop (name : string) (texts : list string) (starting_index : N) :
  for_range (length texts) (fun i out =>
      t ← at_index texts i;
      Returns (AddSetting out
                 (name +:+ to_string (size_t_add starting_index (N.of_nat i))) t)) []
  = Returns (imap (fun i t =>
      SimSetting2 (name +:+ to_string (size_t_add starting_index (N.of_nat i))) t) texts).
Proof.
  set (entry := fun i t =>
    SimSetting2 (name +:+ to_string (size_t_add starting_index (N.of_nat i))) t).
  destruct (for_range_invariant
    (fun i out => out = imap entry (take i texts))
    (length texts)
    (fun i out => t ← at_index texts i;
       Returns (AddSetting out
         (name +:+ to_string (size_t_add starting_index (N.of_nat i))) t)) [])
    as (out & Hrun & ->); [| |by rewrite firstn_all in Hrun].
  - done.
  - intros i out Hi ->.
    destruct (lookup_lt_is_Some_2 texts i) as [t Ht]; [done|].
    rewrite (at_index_Some _ _ _ Ht). simpl.
    eexists; split; [done|].
    rewrite (take_S_r _ _ _ Ht), imap_app. simpl.
    rewrite length_take, Nat.min_l, Nat.add_0_r by lia. done.
Qed.

Example Settings_pairs :
  Settings_variadic "A" "1" [("B", "2")]
  = [{| name := "A"; text := "1" |}; {| name := "B"; text := "2" |}].
Proof. reflexivity. Qed.

Example Settings_prefixed_pairs :
  Settings_variadic_prefix "pfx_" "A" "1" [("B", "2")]
  = [{| name := "pfx_A"; text := "1" |}; {| name := "pfx_B"; text := "2" |}].
Proof. reflexivity. Qed.

(** C7. For every pair of parallel name and text sequences, [Settings]
    returns the empty list, and raises nothing, whenever the two sequences
    differ in length or either is empty; so [Settings(["A"], [])] is [[]].
    Otherwise it returns one name/text pair per position, in sequence
    order. *)
Theorem Settings_parallel (names texts : list string) :
  (length names ≠ length texts ∨ names = [] ∨ texts = [] ->
     Settings names texts = Returns [])
  ∧ (length names = length texts -> names ≠ [] ->
     exists out,
       Settings names texts = Returns out
       ∧ out = zip_with SimSetting2 names texts
       ∧ length out = length names
       ∧ forall i n t, names !! i = Some n -> texts !! i = Some t ->
           out !! i = Some {| name := n; text := t |})
  ∧ Settings ["A"] [] = Returns [].
Proof.
  split; [|split; [|reflexivity]].
  - intros Hdegenerate. unfold Settings.
    destruct (decide (length names = length texts)) as [Hlen|Hlen].
    + assert (length names = 0) as Hzero.
      { destruct Hdegenerate as [?|[->| ->]]; [done|done|by rewrite Hlen]. }
      rewrite (bool_decide_eq_true_2 (length names = 0)) by done.
      by rewrite orb_true_r.
    + by rewrite (bool_decide_eq_true_2 (length names ≠ length texts)) by done.
  - intros Hlen Hnames. exists (zip_with SimSetting2 names texts).
    repeat split.
    + unfold Settings.
      rewrite (bool_decide_eq_false_2 (length names ≠ length texts)) by (by intros []).
      rewrite (bool_decide_eq_false_2 (length names = 0))
        by (by destruct names).
      rewrite (bool_decide_eq_false_2 (length texts = 0))
        by (rewrite <- Hlen; by destruct names).
      simpl. by apply Settings_loop.
    + rewrite length_zip_with. lia.
    + intros i n t Hn Ht. rewrite lookup_zip_with, Hn. simpl. by rewrite Ht.
Qed.

(** C8 fails at the largest starting index: the second name is ["X0"], the
    sum having wrapped, not ["X18446744073709551616"]. *)
Lemma IndexedSettings_wraps :
  IndexedSettings "X" ["a"; "b"] 18446744073709551615
    = Returns [SimSetting2 "X18446744073709551615" "a"; SimSetting2 "X0" "b"]
  ∧ ¬ IndexedSettings_unbounded "X" ["a"; "b"] 18446744073709551615.
Proof.
  assert (IndexedSettings "X" ["a"; "b"] 18446744073709551615
    = Returns [SimSetting2 "X18446744073709551615" "a"; SimSetting2 "X0" "b"]) as Hrun
    by (vm_compute; reflexivity).
  split; [exact Hrun|].
  unfold IndexedSettings_unbounded. rewrite Hrun. vm_compute. discriminate.
Qed.

(** C8, amended. For every base name, every sequence of texts and every
    starting index, [IndexedSettings] returns exactly one entry per text, in
    sequence order, whose name is the base name followed by the decimal
    digits of (starting index + position) reduced modulo [2^64], and whose
    text is the text at that position. While starting index + number of
    texts stays within [2^64] nothing is reduced; in particular
    [IndexedSettings("X", ["a","b"], 3)] is [[("X3","a"),("X4","b")]]. *)
Theorem IndexedSettings_entries (name : string) (texts : list string) (starting_index : N) :
  (exists out,
     IndexedSettings name texts starting_index = Returns out
     ∧ length out = length texts
     ∧ forall i t, texts !! i = Some t ->
         out !! i = Some {|
           Analysis.name :=
             name +:+ to_string ((starting_index + N.of_nat i) mod 2 ^ 64)%N;
           text := t |})
  ∧ ((starting_index + N.of_nat (length texts) <= 2 ^ 64)%N ->
     IndexedSettings_unbounded name texts starting_index)
  ∧ IndexedSettings "X" ["a"; "b"] 3
    = Returns [{| Analysis.name := "X3"; text := "a" |};
               {| Analysis.name := "X4"; text := "b" |}].
Proof.
  assert (IndexedSettings name texts starting_index
    = Returns (imap (fun i t =>
        SimSetting2 (name +:+ to_string (size_t_add starting_index (N.of_nat i))) t)
        texts)) as Hrun.
  { unfold IndexedSettings. case_bool_decide as Hempty.
    - by destruct texts.
    - apply IndexedSettings_loop. }
  split; [|split; [|by vm_compute]].
  - eexists. split; [exact Hrun|]. split.
    + by rewrite length_imap.
    + intros i t Ht. by rewrite list_lookup_imap, Ht.
  - intros Hfits. unfold IndexedSettings_unbounded. rewrite Hrun. f_equal.
    apply imap_ext. intros i t Ht. simpl. unfold size_t_add, size_t_max.
    apply lookup_lt_Some in Ht. rewrite N.mod_small by lia. done.
Qed.

End SettingsFacts.

(** ** The default schema *)

Module SchemaFacts.

Import Analysis.ROOT SchemaSpec.

(** C9. The default schema is a fixed ordered list of exactly 52 keys, the
    default list of type tags has the same length, and the keys are, in this
    order: the hit block (behind its count), the generator-particle block
    (behind its count), the cosmic-ray block and the extension slots. *)
Theorem DefaultDataKeyList_schema :
  length DefaultDataKeyList = 52
  ∧ length DefaultDataKeyTypeList = length DefaultDataKeyList
  ∧ DefaultDataKeyList
    = "NumHits" :: hit_block ++ "NumGenParticles" :: gen_particle_block
      ++ cosmic_block ++ extra_block
  ∧ DefaultDataKeyTypeList
    = Single :: replicate (length hit_block) Vector
      ++ Single :: replicate (length gen_particle_block) Vector
      ++ replicate (length cosmic_block) Vector
      ++ replicate (length extra_block) Vector
  ∧ NoDup DefaultDataKeyList.
Proof.
  repeat split; try reflexivity.
  apply (bool_decide_unpack _). by vm_compute.
Qed.

End SchemaFacts.

(** ** Hit tables *)

Module TableFacts.

Import Analysis.ROOT Tracking Tables Samples.

Local Open Scope float_scope.

Lemma to_double_1 : to_double 1 = 1.
Proof. reflexivity. Qed.

Lemma length_table column_count rows : length (table column_count rows) = column_count.
Proof. unfold table. by rewrite length_fmap, length_seq. Qed.

Lemma length_table_column column_count rows (column : DataEntry) :
  column ∈ table column_count rows -> length column = length rows.
Proof.
  unfold table. intros (j & -> & _)%list_elem_of_fmap. by rewrite length_fmap.
Qed.

Lemma row_of_table column_count rows i row :
  rows !! i = Some row -> length row = column_count ->
  row_of (table column_count rows) i = Some <$> row.
Proof.
  intros Hrow Hlen. unfold row_of, table. rewrite <- list_fmap_compose.
  apply list_eq. intros j. rewrite !list_lookup_fmap.
  destruct (decide (j < column_count)) as [Hj|Hj].
  - rewrite lookup_seq_lt by done. simpl. rewrite list_lookup_fmap, Hrow. simpl.
    destruct (lookup_lt_is_Some_2 row j) as [v Hv]; [lia|].
    rewrite Hv. simpl. by rewrite (nth_lookup_Some _ _ _ _ Hv).
  - rewrite lookup_seq_ge by lia. simpl.
    by rewrite (lookup_ge_None_2 row j) by lia.
Qed.

Lemma empty_columns_returns column_count :
  empty_columns column_count = Returns (replicate column_count []).
Proof.
  unfold empty_columns.
  destruct (for_range_invariant (fun i (out : DataEntryList) => out = replicate i [])
    column_count (fun _ out => mret (push_back out ([] : DataEntry))) [])
    as (out & Hrun & ->); [done| |done].
  intros i out _ ->. eexists. split; [done|].
  unfold push_back. by rewrite replicate_S_end.
Qed.

Lemma push_hit_row name_map hit chamber rows :
  name_map (GetChamberID hit) = Returns chamber ->
  push_hit name_map hit (table 14 rows) = Returns (table 14 (rows ++ [hit_row chamber hit])).
Proof.
  intros Hchamber. unfold push_hit, table. rewrite Hchamber. simpl.
  unfold push_back. rewrite !fmap_app. simpl. by rewrite to_double_1.
Qed.

(** When the mapping throws at a hit, so does the row. *)
Lemma push_hit_throws name_map hit exn rows :
  name_map (GetChamberID hit) = Throws exn ->
  push_hit name_map hit (table 14 rows) = Throws exn.
Proof. intros Hchamber. unfold push_hit, table. by rewrite Hchamber. Qed.

Lemma hit_loop_prefix name_map numeric (collection : HitCollection) n :
  (n <= length collection)%nat ->
  (forall hit, hit ∈ take n collection ->
     name_map (GetChamberID hit) = Returns (numeric (GetChamberID hit))) ->
  for_range n (fun i out =>
      hit ← GetHit collection i;
      push_hit name_map hit out) (replicate 14 [])
  = Returns (hit_table numeric (take n collection)).
Proof.
  intros Hn Hmap. unfold GetHit.
  destruct (for_range_invariant
    (fun i (out : DataEntryList) => out = hit_table numeric (take i collection))
    n
    (fun i out => hit ← at_index collection i; push_hit name_map hit out)
    (replicate 14 [])) as (out & Hrun & ->); [| |done].
  - done.
  - intros i out Hi ->.
    destruct (lookup_lt_is_Some_2 collection i) as [hit Hhit]; [lia|].
    rewrite (at_index_Some _ _ _ Hhit). simpl. unfold hit_table.
    rewrite (push_hit_row _ _ (numeric (GetChamberID hit))).
    + eexists. split; [done|]. by rewrite (take_S_r _ _ _ Hhit), fmap_app.
    + apply Hmap. apply (list_elem_of_lookup_2 _ i). by rewrite lookup_take_lt.
Qed.

Lemma hit_loop_returns name_map numeric (collection : HitCollection) :
  (forall hit, hit ∈ collection ->
     name_map (GetChamberID hit) = Returns (numeric (GetChamberID hit))) ->
  for_range (GetSize collection) (fun i out =>
      hit ← GetHit collection i;
      push_hit name_map hit out) (replicate 14 [])
  = Returns (hit_table numeric collection).
Proof.
  intros Hmap. unfold GetSize.
  rewrite (hit_loop_prefix _ numeric) by (by rewrite ?firstn_all).
  by rewrite firstn_all.
Qed.

(** The first hit at which the mapping throws ends the loop with its
    exception. *)
Lemma hit_loop_throws name_map numeric (collection : HitCollection) i hit exn :
  collection !! i = Some hit ->
  name_map (GetChamberID hit) = Throws exn ->
  (forall hit', hit' ∈ take i collection ->
     name_map (GetChamberID hit') = Returns (numeric (GetChamberID hit'))) ->
  for_range (GetSize collection) (fun i out =>
      hit ← GetHit collection i;
      push_hit name_map hit out) (replicate 14 [])
  = Throws exn.
Proof.
  intros Hhit Hthrows Hmap. pose proof (lookup_lt_Some _ _ _ Hhit) as Hi.
  unfold GetSize, for_range.
  replace (length collection) with (i + S (length collection - S i))%nat by lia.
  rewrite for_from_app.
  pose proof (hit_loop_prefix name_map numeric collection i ltac:(lia) Hmap) as Hprefix.
  unfold for_range in Hprefix. rewrite Hprefix, bind_Returns. simpl.
  change (GetHit collection i) with (at_index collection i).
  rewrite (at_index_Some _ _ _ Hhit), bind_Returns.
  unfold hit_table. by rewrite (push_hit_throws _ _ exn).
Qed.

Lemma convert_to_analysis_returns name_map numeric (collection : HitCollection) :
  (forall hit, hit ∈ collection ->
     name_map (GetChamberID hit) = Returns (numeric (GetChamberID hit))) ->
  _convert_to_analysis collection name_map = Returns (hit_table numeric collection).
Proof.
  intros Hmap. unfold _convert_to_analysis. rewrite empty_columns_returns. simpl.
  by apply hit_loop_returns.
Qed.

Lemma convert_to_analysis_throws name_map numeric (collection : HitCollection) i hit exn :
  collection !! i = Some hit ->
  name_map (GetChamberID hit) = Throws exn ->
  (forall hit', hit' ∈ take i collection ->
     name_map (GetChamberID hit') = Returns (numeric (GetChamberID hit'))) ->
  _convert_to_analysis collection name_map = Throws exn.
Proof.
  intros Hhit Hthrows Hmap. unfold _convert_to_analysis.
  rewrite empty_columns_returns, bind_Returns.
  by apply (hit_loop_throws _ numeric _ i hit).
Qed.

(** C3. For every hit collection, the conversion returns exactly 14 columns,
    each as long as the collection, and row [i] holds for the [i]-th hit, in
    column order: deposit, time, the number the supplied mapping gives for
    the chamber id, pdg code, track id, parent id, position x, y, z, momentum
    e, px, py, pz, and the constant 1. The mapping is one that yields a
    number for the chamber id of every hit of the collection;
    [ConvertToAnalysis(collection)] is the instance at the parser
    [std::stold]. *)
Theorem convert_to_analysis_columns (collection : HitCollection)
    (name_map : string -> outcome double) (numeric : string -> double) :
  (forall hit, hit ∈ collection ->
     name_map (GetChamberID hit) = Returns (numeric (GetChamberID hit))) ->
  exists out,
    _convert_to_analysis collection name_map = Returns out
    ∧ ConvertToAnalysis_hits name_map collection = Returns out
    ∧ length out = 14%nat
    ∧ (forall column, column ∈ out -> length column = GetSize collection)
    ∧ forall i hit, collection !! i = Some hit ->
        row_of out i = Some <$>
          [ GetDeposit hit; t (GetPosition hit); numeric (GetChamberID hit);
            to_double (GetPDGEncoding hit); to_double (GetTrackID hit);
            to_double (GetParentID hit);
            x (GetPosition hit); y (GetPosition hit); z (GetPosition hit);
            e (GetMomentum hit); px (GetMomentum hit); py (GetMomentum hit);
            pz (GetMomentum hit);
            1 ].
Proof.
  intros Hmap. exists (hit_table numeric collection).
  pose proof (convert_to_analysis_returns _ _ _ Hmap) as Hrun.
  split; [exact Hrun|]. split; [exact Hrun|]. split; [apply length_table|]. split.
  - intros column Hcolumn. apply length_table_column in Hcolumn.
    by rewrite length_fmap in Hcolumn.
  - intros i hit Hhit.
    apply (row_of_table 14 _ i (hit_row (numeric (GetChamberID hit)) hit)); [|done].
    by rewrite list_lookup_fmap, Hhit.
Qed.

Lemma convert_to_analysis_columns_witness :
  exists out,
    _convert_to_analysis [sample_hit "Layer1" 0.75 7005; sample_hit "Layer2" 0.75 7015]
      (fun id => mret (lookup_or_minus_1 {[ "Layer1" := 1 ]} id)) = Returns out
    ∧ length out = 14%nat
    ∧ out !! 2%nat = Some [1; -1].
Proof.
  destruct (convert_to_analysis_columns
    [sample_hit "Layer1" 0.75 7005; sample_hit "Layer2" 0.75 7015]
    (fun id => mret (lookup_or_minus_1 {[ "Layer1" := 1 ]} id))
    (lookup_or_minus_1 {[ "Layer1" := 1 ]})) as (out & Hrun & _ & Hlen & _).
  - intros hit _. reflexivity.
  - exists out. split; [exact Hrun|]. split; [exact Hlen|].
    vm_compute in Hrun. injection Hrun as <-. reflexivity.
Defined.

(** C6. In the map-based conversion the chamber column of every row holds
    the number the map gives for the chamber id of the hit when the id is a
    key of the map, and -1 when it is not; the call returns in both cases.
    With the map [{"Layer1": 1.0}] a hit in ["Layer2"] gets -1. *)
Theorem ConvertToAnalysis_map_chamber (collection : HitCollection) (map : NameToDataMap) :
  (exists out,
     ConvertToAnalysis_map collection map = Returns out
     ∧ out = hit_table (lookup_or_minus_1 map) collection
     ∧ forall i hit, collection !! i = Some hit ->
         (forall number, map !! GetChamberID hit = Some number ->
            cell out 2 i = Some number)
         ∧ (map !! GetChamberID hit = None -> cell out 2 i = Some (-1)))
  ∧ forall hit, GetChamberID hit = "Layer2" ->
      exists out,
        ConvertToAnalysis_map [hit] {[ "Layer1" := 1 ]} = Returns out
        ∧ out !! 2%nat = Some [-1].
Proof.
  assert (forall (hits : HitCollection) (names : NameToDataMap),
    ConvertToAnalysis_map hits names = Returns (hit_table (lookup_or_minus_1 names) hits))
    as Hrun.
  { intros hits names. unfold ConvertToAnalysis_map.
    by apply (convert_to_analysis_returns _ (lookup_or_minus_1 names)). }
  split.
  - eexists. split; [apply Hrun|]. split; [done|].
    intros i hit Hhit.
    assert (cell (hit_table (lookup_or_minus_1 map) collection) 2 i
      = Some (lookup_or_minus_1 map (GetChamberID hit))) as Hcell.
    { unfold cell, hit_table, table. simpl.
      by rewrite <- list_fmap_compose, list_lookup_fmap, Hhit. }
    rewrite Hcell. unfold lookup_or_minus_1. split.
    + by intros number ->.
    + by intros ->.
  - intros hit Hchamber. eexists. split; [apply Hrun|].
    unfold hit_table, table, lookup_or_minus_1. simpl. rewrite Hchamber.
    by rewrite lookup_singleton_ne.
Qed.

(** ** Generator particles *)

Section ParticleRows.

Variables pT eta phi : Vec4 -> double.

Lemma select_loop (particles : GenParticleVector) (saveall : bool) :
  for_range (length particles) (fun index pvec =>
      particle ← at_index particles index;
      if saveall || bool_decide (0 ≤ G4index particle)%Z
      then mret (push_back pvec particle)
      else mret pvec) []
  = Returns (selected saveall particles).
Proof.
  destruct (for_range_invariant
    (fun i (pvec : GenParticleVector) => pvec = selected saveall (take i particles))
    (length particles)
    (fun index pvec =>
      particle ← at_index particles index;
      if saveall || bool_decide (0 ≤ G4index particle)%Z
      then mret (push_back pvec particle)
      else mret pvec) []) as (pvec & Hrun & ->);
    [| |by rewrite firstn_all in Hrun].
  - by destruct saveall.
  - intros i pvec Hi ->.
    destruct (lookup_lt_is_Some_2 particles i) as [particle Hparticle]; [done|].
    rewrite (at_index_Some _ _ _ Hparticle), (take_S_r _ _ _ Hparticle). simpl.
    unfold selected, transported, push_back. destruct saveall; simpl.
    + by eexists.
    + rewrite filter_app, filter_cons, filter_nil.
      case_bool_decide; case_decide; try done; eexists; split; try done.
      by rewrite app_nil_r.
Qed.

Lemma push_particle_row particle rows :
  push_particle pT eta phi particle (table 20 rows)
  = Returns (table 20 (rows ++ [particle_row pT eta phi particle])).
Proof.
  unfold push_particle, table. simpl. unfold push_back. by rewrite !fmap_app.
Qed.

Lemma particle_loop (pvec : GenParticleVector) :
  for_range (length pvec) (fun index out =>
      particle ← at_index pvec index;
      push_particle pT eta phi particle out) (replicate 20 [])
  = Returns (table 20 (particle_row pT eta phi <$> pvec)).
Proof.
  destruct (for_range_invariant
    (fun i (out : DataEntryList) => out = table 20 (particle_row pT eta phi <$> take i pvec))
    (length pvec)
    (fun index out => particle ← at_index pvec index;
                      push_particle pT eta phi particle out)
    (replicate 20 [])) as (out & Hrun & ->);
    [| |by rewrite firstn_all in Hrun].
  - done.
  - intros i out Hi ->.
    destruct (lookup_lt_is_Some_2 pvec i) as [particle Hparticle]; [done|].
    rewrite (at_index_Some _ _ _ Hparticle). simpl. rewrite push_particle_row.
    eexists. split; [done|]. by rewrite (take_S_r _ _ _ Hparticle), fmap_app.
Qed.

(** C4. For every list of generator particles the conversion returns 20
    columns. With [saveall] false its rows are the particles whose
    transported-link index is not negative, one row each, in input order,
    and nothing else; with [saveall] true, all the particles. A row holds,
    in column order: index, transported-link index, pdg code, status, vertex
    e, px, py, pz, momentum e, px, py, pz, the two mothers, the two
    daughters, mass, and the transverse momentum, pseudorapidity and azimuth
    of the momentum. *)
Theorem ConvertToAnalysis_particles_rows (particles : GenParticleVector) (saveall : bool) :
  exists out,
    ConvertToAnalysis_particles pT eta phi particles saveall = Returns out
    ∧ length out = 20%nat
    ∧ (forall column, column ∈ out ->
         length column = length (selected saveall particles))
    ∧ (forall i particle, selected saveall particles !! i = Some particle ->
         row_of out i = Some <$>
           [ to_double (index particle); to_double (G4index particle);
             to_double (pdgid particle); to_double (status particle);
             vec_e (vertex particle); vec_px (vertex particle);
             vec_py (vertex particle); vec_pz (vertex particle);
             vec_e (mom particle); vec_px (mom particle);
             vec_py (mom particle); vec_pz (mom particle);
             to_double (moid1 particle); to_double (moid2 particle);
             to_double (dau1 particle); to_double (dau2 particle);
             m particle;
             pT (mom particle); eta (mom particle); phi (mom particle) ])
    ∧ selected true particles = particles
    ∧ selected false particles
      = filter (fun particle => (0 ≤ G4index particle)%Z) particles.
Proof.
  exists (table 20 (particle_row pT eta phi <$> selected saveall particles)).
  split; [|split; [apply length_table|split; [|split; [|done]]]].
  - unfold ConvertToAnalysis_particles.
    rewrite select_loop, bind_Returns, empty_columns_returns, bind_Returns.
    apply particle_loop.
  - intros column Hcolumn. apply length_table_column in Hcolumn.
    by rewrite length_fmap in Hcolumn.
  - intros i particle Hparticle.
    apply (row_of_table 20 _ i (particle_row pT eta phi particle)); [|done].
    by rewrite list_lookup_fmap, Hparticle.
Qed.

End ParticleRows.

(** ** The extra block *)

Lemma extra_empty_loop (extra : list (list double)) :
  (16 <= length extra)%nat ->
  for_range 16 (fun i out =>
      extra_i ← at_index extra i;
      mret (push_back out ([] : DataEntry))) []
  = Returns (replicate 16 []).
Proof.
  intros Hlen.
  destruct (for_range_invariant (fun i (out : DataEntryList) => out = replicate i [])
    16 (fun i out => extra_i ← at_index extra i;
                     mret (push_back out ([] : DataEntry))) [])
    as (out & Hrun & ->); [done| |done].
  intros i out Hi ->.
  destruct (lookup_lt_is_Some_2 extra i) as [extra_i Hextra_i]; [lia|].
  rewrite (at_index_Some _ _ _ Hextra_i). eexists. split; [done|].
  unfold push_back. by rewrite replicate_S_end.
Qed.

(** Copying one column: the inner loop of the second pass. *)
Lemma extra_copy_loop (before after : DataEntryList) (extra_i : DataEntry) :
  for_range (length extra_i) (fun index out =>
      value ← at_index extra_i index;
      push_at out (length before) value) (before ++ [] :: after)
  = Returns (before ++ extra_i :: after).
Proof.
  destruct (for_range_invariant
    (fun index (out : DataEntryList) => out = before ++ take index extra_i :: after)
    (length extra_i)
    (fun index out => value ← at_index extra_i index;
                      push_at out (length before) value)
    (before ++ [] :: after)) as (out & Hrun & ->);
    [| |by rewrite firstn_all in Hrun].
  - done.
  - intros index out Hindex ->.
    destruct (lookup_lt_is_Some_2 extra_i index) as [value Hvalue]; [done|].
    rewrite (at_index_Some _ _ _ Hvalue), bind_Returns. unfold push_at.
    rewrite (at_index_Some _ _ (take index extra_i)) by (by apply list_lookup_middle).
    rewrite bind_Returns. eexists. split; [done|].
    rewrite insert_app_r_alt, Nat.sub_diag by done. simpl.
    by rewrite (take_S_r _ _ _ Hvalue).
Qed.

Lemma extra_copy_all (extra : list (list double)) :
  (16 <= length extra)%nat ->
  for_range 16 (fun i out =>
      extra_i ← at_index extra i;
      for_range (length extra_i) (fun index out =>
        value ← at_index extra_i index;
        push_at out i value) out) (replicate 16 [])
  = Returns (take 16 extra).
Proof.
  intros Hlen.
  destruct (for_range_invariant
    (fun i (out : DataEntryList) => out = take i extra ++ replicate (16 - i) [])
    16
    (fun i out =>
      extra_i ← at_index extra i;
      for_range (length extra_i) (fun index out =>
        value ← at_index extra_i index;
        push_at out i value) out) (replicate 16 [])) as (out & Hrun & ->);
    [| |by rewrite app_nil_r in Hrun].
  - done.
  - intros i out Hi ->.
    destruct (lookup_lt_is_Some_2 extra i) as [extra_i Hextra_i]; [lia|].
    rewrite (at_index_Some _ _ _ Hextra_i), bind_Returns.
    replace (16 - i)%nat with (S (16 - S i)) by lia.
    pose proof (extra_copy_loop (take i extra) (replicate (16 - S i) []) extra_i)
      as Hcopy.
    rewrite length_take, Nat.min_l in Hcopy by lia.
    eexists. split; [exact Hcopy|].
    rewrite (take_S_r _ _ _ Hextra_i), <- (assoc_L (++)). done.
Qed.

(** C10. For every per-column sequence with at least 16 columns the
    conversion returns exactly 16 columns, output column [i] being input
    column [i] as it is for [i] from 0 to 15; later columns are ignored and
    the columns need not agree in length. With fewer than 16 columns the
    call reads outside the sequence: such inputs are outside what it
    accepts. [EmptyExtra()] is converted to itself. *)
Theorem ConvertToAnalysis_extra_columns (extra : list (list double)) :
  ((16 <= length extra)%nat ->
     exists out,
       ConvertToAnalysis_extra extra = Returns out
       ∧ length out = 16%nat
       ∧ forall i, (i < 16)%nat -> out !! i = extra !! i)
  ∧ ((length extra < 16)%nat -> ConvertToAnalysis_extra extra = Undefined)
  ∧ ConvertToAnalysis_extra EmptyExtra = Returns EmptyExtra.
Proof.
  split; [|split; [|reflexivity]].
  - intros Hlen. exists (take 16 extra). split; [|split].
    + unfold ConvertToAnalysis_extra.
      rewrite (extra_empty_loop _ Hlen), bind_Returns. by apply extra_copy_all.
    + rewrite length_take. lia.
    + intros i Hi. by rewrite lookup_take_lt.
  - intros Hlen. unfold ConvertToAnalysis_extra.
    rewrite (for_range_fails 16 _ [] (length extra) Undefined); [done|done|lia| |].
    + intros i out Hi.
      destruct (lookup_lt_is_Some_2 extra i) as [extra_i Hextra_i]; [lia|].
      rewrite (at_index_Some _ _ _ Hextra_i). by eexists.
    + intros out. by rewrite at_index_None.
Qed.

Lemma ConvertToAnalysis_extra_columns_witness :
  exists out,
    ConvertToAnalysis_extra sample_extra = Returns out
    ∧ length out = 16%nat
    ∧ forall i, (i < 16)%nat -> out !! i = sample_extra !! i.
Proof.
  apply (ConvertToAnalysis_extra_columns sample_extra). simpl. lia.
Defined.

End TableFacts.

(** ** Integers as doubles *)

Module DoubleFacts.

Import SpecFloat Doubles.

Local Open Scope Z_scope.

Lemma iter_xO_value p k : Z.pos (Pos.iter xO p k) = Z.pos p * 2 ^ Z.pos k.
Proof.
  induction k as [|k IH] using Pos.peano_ind.
  - simpl. lia.
  - rewrite Pos.iter_succ, Pos2Z.inj_succ, Z.pow_succ_r by lia.
    rewrite Pos2Z.inj_xO, IH. lia.
Qed.

Lemma digits2_iter_xO p k :
  Z.pos (digits2_pos (Pos.iter xO p k)) = Z.pos (digits2_pos p) + Z.pos k.
Proof.
  induction k as [|k IH] using Pos.peano_ind.
  - simpl. lia.
  - rewrite Pos.iter_succ. simpl digits2_pos. lia.
Qed.

Lemma digits2_bounds p :
  2 ^ (Z.pos (digits2_pos p) - 1) <= Z.pos p < 2 ^ Z.pos (digits2_pos p).
Proof.
  induction p as [p IH|p IH|]; simpl digits2_pos; [| |simpl; lia];
    rewrite Pos2Z.inj_succ, Z.pow_succ_r by lia;
    replace (Z.succ (Z.pos (digits2_pos p)) - 1)
      with (Z.succ (Z.pos (digits2_pos p) - 1)) by lia;
    rewrite Z.pow_succ_r by lia; lia.
Qed.

Lemma digits2_le_53 p : Z.pos p < 2 ^ 53 -> Z.pos (digits2_pos p) <= 53.
Proof.
  intros Hp. destruct (digits2_bounds p) as [Hlow _].
  destruct (Z_le_gt_dec (Z.pos (digits2_pos p)) 53) as [|Hgt]; [done|].
  assert (2 ^ 53 <= 2 ^ (Z.pos (digits2_pos p) - 1)) by (apply Z.pow_le_mono_r; lia).
  lia.
Qed.

Lemma shl_align_53 p :
  Z.pos p < 2 ^ 53 ->
  shl_align p 0 (Z.pos (digits2_pos p) - 53) = (mantissa p, exponent p)
  ∧ Z.pos (mantissa p) = Z.pos p * 2 ^ (53 - Z.pos (digits2_pos p))
  ∧ Z.pos (digits2_pos (mantissa p)) = 53.
Proof.
  intros Hp. apply digits2_le_53 in Hp.
  unfold mantissa, exponent, shl_align.
  destruct (Z.pos (digits2_pos p) - 53 - 0) as [|d|d] eqn:Hd; simpl fst.
  - assert (Z.pos (digits2_pos p) = 53) as Hdigits by lia.
    rewrite Hdigits. simpl. split; [reflexivity|]. split; [lia|done].
  - lia.
  - assert (Z.pos (digits2_pos p) - 53 = Z.neg d) as -> by lia.
    split; [reflexivity|]. rewrite iter_xO_value, digits2_iter_xO.
    split; [f_equal; f_equal; lia|lia].
Qed.

Lemma fexp_digits d : 1 <= d <= 53 -> fexp prec emax d = d - 53.
Proof. intros Hd. unfold fexp, emin, prec, emax. lia. Qed.

(** Below [2^53] nothing is rounded. *)
Lemma binary_normalize_index n :
  0 <= n < 2 ^ 53 -> binary_normalize prec emax n 0 false = SF_of_index n.
Proof.
  intros Hn. destruct n as [|p|p]; [reflexivity| |lia].
  destruct Hn as [_ Hp]. pose proof (digits2_le_53 p Hp) as Hdigits.
  destruct (shl_align_53 p Hp) as (Halign & Hvalue & Hmdigits).
  unfold binary_normalize, binary_round.
  rewrite Z.add_0_r, fexp_digits by lia. rewrite Halign.
  unfold binary_round_aux, shr_fexp. cbn [Zdigits2 shr_record_of_loc].
  rewrite Hmdigits.
  replace (53 + exponent p) with (Z.pos (digits2_pos p)) by (unfold exponent; lia).
  rewrite fexp_digits by lia. fold (exponent p). rewrite Z.sub_diag.
  cbn [shr shr_m loc_of_shr_record round_nearest_even Zdigits2 shr_record_of_loc].
  rewrite Hmdigits.
  replace (53 + exponent p) with (Z.pos (digits2_pos p)) by (unfold exponent; lia).
  rewrite fexp_digits by lia. fold (exponent p). rewrite Z.sub_diag.
  cbn [shr shr_m].
  assert ((exponent p <=? emax - prec) = true) as ->; [|reflexivity].
  apply Z.leb_le. unfold exponent, emax, prec. lia.
Qed.

Lemma valid_index n : 0 <= n < 2 ^ 53 -> valid_binary prec emax (SF_of_index n) = true.
Proof.
  intros Hn. destruct n as [|p|p]; [reflexivity| |lia].
  destruct Hn as [_ Hp]. pose proof (digits2_le_53 p Hp) as Hdigits.
  destruct (shl_align_53 p Hp) as (_ & _ & Hmdigits).
  simpl. unfold bounded, canonical_mantissa. rewrite Hmdigits.
  replace (53 + exponent p) with (Z.pos (digits2_pos p)) by (unfold exponent; lia).
  rewrite fexp_digits by lia. fold (exponent p). rewrite Z.eqb_refl. simpl.
  apply Z.leb_le. unfold exponent, emax, prec. lia.
Qed.

Lemma Prim2SF_to_double n : 0 <= n < 2 ^ 53 -> Prim2SF (to_double n) = SF_of_index n.
Proof.
  intros Hn. unfold to_double. rewrite binary_normalize_index by done.
  apply FloatAxioms.Prim2SF_SF2Prim. by apply valid_index.
Qed.

Lemma SFcompare_index a b :
  0 <= a < 2 ^ 53 -> 0 <= b < 2 ^ 53 ->
  SFcompare (SF_of_index a) (SF_of_index b) = Some (a ?= b).
Proof.
  intros Ha Hb.
  destruct a as [|p|p], b as [|q|q]; try lia; try reflexivity.
  simpl. f_equal.
  destruct Ha as [_ Hp], Hb as [_ Hq].
  pose proof (digits2_le_53 p Hp) as Hdp. pose proof (digits2_le_53 q Hq) as Hdq.
  destruct (shl_align_53 p Hp) as (_ & Hmp & _).
  destruct (shl_align_53 q Hq) as (_ & Hmq & _).
  pose proof (digits2_bounds p) as [Hlp Hup].
  pose proof (digits2_bounds q) as [Hlq Huq].
  unfold exponent.
  destruct (Z.compare_spec (Z.pos (digits2_pos p) - 53) (Z.pos (digits2_pos q) - 53))
    as [He|He|He].
  - rewrite Pos.compare_cont_spec.
    replace (Pos.switch_Eq Eq (mantissa p ?= mantissa q)%positive)
      with (mantissa p ?= mantissa q)%positive
      by (by destruct (mantissa p ?= mantissa q)%positive).
    assert (Z.pos (digits2_pos p) = Z.pos (digits2_pos q)) as Hd by lia.
    rewrite Hd in Hmp.
    change (p ?= q)%positive with (Z.pos p ?= Z.pos q).
    change (mantissa p ?= mantissa q)%positive
      with (Z.pos (mantissa p) ?= Z.pos (mantissa q)).
    rewrite Hmp, Hmq.
    assert (0 < 2 ^ (53 - Z.pos (digits2_pos q))) as Hpow
      by (apply Z.pow_pos_nonneg; lia).
    destruct (Z.compare_spec (Z.pos p) (Z.pos q)) as [Hc|Hc|Hc].
    + rewrite Hc. apply Z.compare_refl.
    + apply Z.compare_lt_iff. nia.
    + apply Z.compare_gt_iff. nia.
  - symmetry. change ((Z.pos p ?= Z.pos q) = Lt). apply Z.compare_lt_iff.
    assert (2 ^ Z.pos (digits2_pos p) <= 2 ^ (Z.pos (digits2_pos q) - 1))
      by (apply Z.pow_le_mono_r; lia).
    lia.
  - symmetry. change ((Z.pos p ?= Z.pos q) = Gt). apply Z.compare_gt_iff.
    assert (2 ^ Z.pos (digits2_pos q) <= 2 ^ (Z.pos (digits2_pos p) - 1))
      by (apply Z.pow_le_mono_r; lia).
    lia.
Qed.

(** Integers from 0 to [2^53 - 1] are converted without loss: [<] and [==]
    on the doubles are [<] and [=] on the integers. *)
Lemma to_double_ltb a b :
  0 <= a < 2 ^ 53 -> 0 <= b < 2 ^ 53 ->
  PrimFloat.ltb (to_double a) (to_double b) = (a <? b).
Proof.
  intros Ha Hb. rewrite FloatAxioms.ltb_spec, !Prim2SF_to_double by done.
  unfold SFltb. by rewrite SFcompare_index by done.
Qed.

Lemma to_double_eqb a b :
  0 <= a < 2 ^ 53 -> 0 <= b < 2 ^ 53 ->
  PrimFloat.eqb (to_double a) (to_double b) = (a =? b).
Proof.
  intros Ha Hb. rewrite FloatAxioms.eqb_spec, !Prim2SF_to_double by done.
  unfold SFeqb. rewrite SFcompare_index by done.
  destruct (Z.compare_spec a b) as [->|Hlt|Hgt].
  - by rewrite Z.eqb_refl.
  - symmetry. apply Z.eqb_neq. lia.
  - symmetry. apply Z.eqb_neq. lia.
Qed.

(** Nothing above 7000 is below a positive double with a smaller binary
    exponent. *)
Lemma above_7000_not_below (v upper : double) m e :
  Prim2SF upper = S754_finite false m e -> e < -40 ->
  PrimFloat.ltb 7000 v = true -> PrimFloat.ltb v upper = false.
Proof.
  intros Hupper He. rewrite !FloatAxioms.ltb_spec, Hupper.
  replace (Prim2SF 7000) with (S754_finite false 7696581394432000 (-40))
    by reflexivity.
  destruct (Prim2SF v) as [[]|[]| |[] mv ev]; try done.
  unfold SFltb, SFcompare.
  destruct (Z.compare_spec (-40) ev) as [Heq|Hlt|Hgt]; [| |done].
  - subst ev. destruct (Z.compare_spec (-40) e); [lia|lia|by intros _].
  - destruct (Z.compare_spec ev e); [lia|lia|by intros _].
Qed.

End DoubleFacts.

(** ** The cut *)

Module CutFacts.

Import Analysis.ROOT Tracking Tables Cut Samples TableFacts.

Local Open Scope float_scope.

Lemma in_layer_returns hit layer_bounds k bounds :
  layer_bounds !! k = Some bounds -> (2 <= length bounds)%nat ->
  in_layer hit layer_bounds k = Returns (strictly_inside (y (GetPosition hit)) bounds).
Proof.
  intros Hk Hlen. unfold in_layer. rewrite (at_index_Some _ _ _ Hk), bind_Returns.
  destruct bounds as [|lower [|upper rest]]; simpl in Hlen; [lia|lia|].
  simpl. by destruct (lower <? y (GetPosition hit)).
Qed.

Lemma reaches_passes_cut layer_bounds hit k :
  reaches layer_bounds hit k
  = passes_cut hit
    && match layer_bounds !! k with
       | Some bounds => strictly_inside (y (GetPosition hit)) bounds
       | None => false
       end.
Proof. reflexivity. Qed.

Lemma layers_loop hit layer_bounds (tracker_layers : list double) :
  intervals layer_bounds -> passes_cut hit = true ->
  for_range (length layer_bounds) (fun k tracker_layers =>
      inside ← in_layer hit layer_bounds k;
      if inside : bool
      then mret (push_back tracker_layers (to_double (Z.of_nat k)))
      else mret tracker_layers) tracker_layers
  = Returns (tracker_layers ++ (index_double <$> hit_layers layer_bounds hit)).
Proof.
  intros Hbounds Hcut.
  destruct (for_range_invariant
    (fun k (layers : list double) =>
       layers = tracker_layers
         ++ (index_double <$> filter (fun k => reaches layer_bounds hit k = true) (seq 0 k)))
    (length layer_bounds)
    (fun k tracker_layers =>
      inside ← in_layer hit layer_bounds k;
      if inside : bool
      then mret (push_back tracker_layers (to_double (Z.of_nat k)))
      else mret tracker_layers) tracker_layers) as (layers & Hrun & ->);
    [| |exact Hrun].
  - simpl. by rewrite app_nil_r.
  - intros k layers Hk ->.
    destruct (lookup_lt_is_Some_2 layer_bounds k) as [bounds Hbound]; [done|].
    rewrite (in_layer_returns _ _ _ bounds), bind_Returns;
      [|done|by eapply (Forall_lookup_1 _ _ _ _ Hbounds)].
    rewrite seq_S, filter_app, filter_cons, filter_nil, fmap_app. simpl.
    rewrite reaches_passes_cut, Hcut, Hbound. simpl.
    destruct (strictly_inside (y (GetPosition hit)) bounds); eexists; split; try done.
    + rewrite decide_True by done. unfold push_back. by rewrite <- (assoc_L (++)).
    + rewrite decide_False by done. simpl. by rewrite app_nil_r.
Qed.

Lemma hit_layers_fails_cut layer_bounds hit :
  passes_cut hit = false -> hit_layers layer_bounds hit = [].
Proof.
  intros Hcut. unfold hit_layers.
  induction (seq 0 (length layer_bounds)) as [|k ks IH]; [done|].
  rewrite filter_cons, IH, reaches_passes_cut, Hcut. done.
Qed.

Lemma collect_layers_returns (collection : HitCollection) layer_bounds :
  intervals layer_bounds ->
  collect_layers collection layer_bounds
  = Returns (index_double <$> (collection ≫= hit_layers layer_bounds)).
Proof.
  intros Hbounds. unfold collect_layers, GetSize, GetHit.
  destruct (for_range_invariant
    (fun i (layers : list double) =>
       layers = index_double <$> (take i collection ≫= hit_layers layer_bounds))
    (length collection)
    (fun i tracker_layers =>
      hit ← at_index collection i;
      if passes_cut hit
      then
        for_range (length layer_bounds) (fun k tracker_layers =>
          inside ← in_layer hit layer_bounds k;
          if inside : bool
          then mret (push_back tracker_layers (to_double (Z.of_nat k)))
          else mret tracker_layers) tracker_layers
      else mret tracker_layers) []) as (layers & Hrun & ->);
    [| |by rewrite firstn_all in Hrun].
  - done.
  - intros i layers Hi ->.
    destruct (lookup_lt_is_Some_2 collection i) as [hit Hhit]; [done|].
    rewrite (at_index_Some _ _ _ Hhit), bind_Returns.
    rewrite (take_S_r _ _ _ Hhit), bind_app, fmap_app. simpl. rewrite app_nil_r.
    destruct (passes_cut hit) eqn:Hcut.
    + rewrite layers_loop by done. by eexists.
    + rewrite hit_layers_fails_cut by done. simpl. rewrite app_nil_r. by eexists.
Qed.

Lemma index_insert_perm v l : index_insert v l ≡ₚ v :: l.
Proof.
  induction l as [|w l IH]; simpl; [done|].
  destruct (v <? w)%nat; [done|]. rewrite IH. apply Permutation_swap.
Qed.

Lemma index_sort_perm l : index_sort l ≡ₚ l.
Proof.
  induction l as [|v l IH]; simpl; [done|].
  by rewrite index_insert_perm, IH.
Qed.

Lemma index_insert_sorted v l :
  StronglySorted le l -> StronglySorted le (index_insert v l).
Proof.
  induction 1 as [|w l Hsorted IH Hle]; simpl.
  - repeat constructor.
  - destruct (v <? w)%nat eqn:Hvw.
    + apply Nat.ltb_lt in Hvw. constructor; [by constructor|].
      constructor; [lia|]. eapply Forall_impl; [exact Hle|]. simpl. lia.
    + apply Nat.ltb_ge in Hvw. constructor; [done|].
      rewrite index_insert_perm. by constructor.
Qed.

Lemma index_sort_sorted l : StronglySorted le (index_sort l).
Proof.
  induction l as [|v l IH]; simpl; [constructor|]. by apply index_insert_sorted.
Qed.

Lemma index_unique_after_sorted kept l :
  StronglySorted le (kept :: l) ->
  NoDup (kept :: index_unique_after kept l)
  ∧ forall v, v ∈ kept :: index_unique_after kept l <-> v ∈ kept :: l.
Proof.
  revert kept; induction l as [|w l IH]; intros kept Hsorted; simpl.
  - split; [apply NoDup_singleton|done].
  - apply StronglySorted_inv in Hsorted as [Hrest Hle].
    apply Forall_cons in Hle as [Hkw Hle].
    destruct (kept =? w)%nat eqn:Heq.
    + apply Nat.eqb_eq in Heq as <-.
      destruct (IH kept) as [Hnodup Helem]; [done|].
      split; [done|]. intros v. rewrite Helem, !elem_of_cons. tauto.
    + apply Nat.eqb_neq in Heq.
      destruct (IH w) as [Hnodup Helem]; [done|].
      split.
      * constructor; [|done]. rewrite Helem.
        apply StronglySorted_inv in Hrest as [_ Hwl].
        intros [->|Hin]%elem_of_cons; [done|].
        rewrite Forall_forall in Hwl. specialize (Hwl _ Hin). lia.
      * intros v. rewrite !(elem_of_cons _ v kept), Helem. done.
Qed.

Lemma index_unique_sorted l :
  StronglySorted le l ->
  NoDup (index_unique l) ∧ forall v, v ∈ index_unique l <-> v ∈ l.
Proof.
  destruct l as [|v l]; simpl.
  - intros _. split; [constructor|done].
  - apply index_unique_after_sorted.
Qed.

Section Exact.

Variable n : nat.
Hypothesis Hexact : index_exact n.

Lemma sort_insert_indices v l :
  (v < n)%nat -> Forall (fun w => (w < n)%nat) l ->
  sort_insert (index_double v) (index_double <$> l) = index_double <$> index_insert v l.
Proof.
  intros Hv. induction 1 as [|w l Hw Hl IH]; [done|].
  rewrite fmap_cons. cbn [sort_insert index_insert].
  destruct (Hexact v w Hv Hw) as [-> _].
  destruct (v <? w)%nat; [done|]. by rewrite fmap_cons, IH.
Qed.

Lemma sort_indices l :
  Forall (fun w => (w < n)%nat) l ->
  sort (index_double <$> l) = index_double <$> index_sort l.
Proof.
  induction 1 as [|v l Hv Hl IH]; [done|].
  rewrite fmap_cons. unfold sort, index_sort in *. cbn [foldr].
  rewrite IH. apply sort_insert_indices; [done|].
  by rewrite (index_sort_perm l).
Qed.

Lemma unique_after_indices kept l :
  (kept < n)%nat -> Forall (fun w => (w < n)%nat) l ->
  unique_after (index_double kept) (index_double <$> l)
  = index_double <$> index_unique_after kept l.
Proof.
  intros Hkept Hl. revert kept Hkept.
  induction Hl as [|v l Hv Hl IH]; intros kept Hkept; [done|].
  rewrite fmap_cons. cbn [unique_after index_unique_after].
  destruct (Hexact kept v Hkept Hv) as [_ ->].
  destruct (kept =? v)%nat; [by apply IH|]. by rewrite fmap_cons, IH.
Qed.

Lemma unique_indices l :
  Forall (fun w => (w < n)%nat) l ->
  unique (index_double <$> l) = index_double <$> index_unique l.
Proof.
  destruct 1 as [|v l Hv Hl]; [done|].
  rewrite fmap_cons. cbn [unique index_unique].
  by rewrite fmap_cons, unique_after_indices.
Qed.

End Exact.

Lemma ascending_indices n l :
  index_exact n -> Forall (fun w => (w < n)%nat) l ->
  Sorted (fun v w => (w <? v) = false) (index_double <$> l) -> Sorted le l.
Proof.
  intros Hexact. induction 1 as [|v l Hv Hl IH]; [constructor|].
  rewrite fmap_cons. intros [Hsorted Hhead]%Sorted_inv.
  constructor; [by apply IH|].
  destruct Hl as [|w l Hw Hl]; constructor.
  rewrite fmap_cons in Hhead. apply HdRel_inv in Hhead.
  destruct (Hexact w v Hw Hv) as [Hlt _]. rewrite Hlt in Hhead.
  apply Nat.ltb_ge in Hhead. lia.
Qed.

(** On converted indices every sorting algorithm leaves what [sort] does. *)
Lemma sort_arrangement_unique n l output :
  index_exact n -> Forall (fun w => (w < n)%nat) l ->
  sorted_arrangement (index_double <$> l) output ->
  output = sort (index_double <$> l).
Proof.
  intros Hexact Hl [Hperm Hsorted].
  change (index_double <$> l) with (map index_double l) in Hperm.
  apply Permutation_map_inv in Hperm as (l' & -> & Hperm).
  change (map index_double l') with (index_double <$> l') in *.
  rewrite (sort_indices n Hexact) by done. f_equal.
  apply (Sorted_unique le).
  - apply (ascending_indices n); [done| |done]. by rewrite <- Hperm.
  - apply StronglySorted_Sorted, index_sort_sorted.
  - by rewrite index_sort_perm.
Qed.

Lemma elem_of_hit_layers layer_bounds hit k :
  k ∈ hit_layers layer_bounds hit
  <-> (k < length layer_bounds)%nat ∧ reaches layer_bounds hit k = true.
Proof.
  unfold hit_layers. rewrite list_elem_of_filter, elem_of_seq. intuition lia.
Qed.

Lemma elem_of_layers_reached (collection : HitCollection) layer_bounds k :
  k ∈ layers_reached collection layer_bounds
  <-> k ∈ collection ≫= hit_layers layer_bounds.
Proof.
  unfold layers_reached.
  rewrite list_elem_of_filter, elem_of_seq, Exists_exists, list_elem_of_bind.
  setoid_rewrite elem_of_hit_layers. simpl. split.
  - intros [(hit & Hhit & Hreach) [_ Hk]]. by exists hit.
  - intros (hit & [Hk Hreach] & Hhit). split; [by exists hit|lia].
Qed.

Lemma NoDup_layers_reached (collection : HitCollection) layer_bounds :
  NoDup (layers_reached collection layer_bounds).
Proof. apply NoDup_filter, NoDup_seq. Qed.

(** The vector left by [sort], [unique] and [erase] has one entry per layer
    reached. *)
Lemma distinct_layers (collection : HitCollection) layer_bounds :
  index_exact (length layer_bounds) ->
  length (unique (sort (index_double <$> (collection ≫= hit_layers layer_bounds))))
  = length (layers_reached collection layer_bounds).
Proof.
  intros Hexact.
  assert (Forall (fun w => (w < length layer_bounds)%nat)
            (collection ≫= hit_layers layer_bounds)) as Hbelow.
  { apply Forall_forall. intros k (hit & Hk & _)%list_elem_of_bind.
    by apply elem_of_hit_layers in Hk as [? _]. }
  rewrite (sort_indices _ Hexact) by done.
  rewrite (unique_indices _ Hexact) by (by rewrite index_sort_perm).
  rewrite length_fmap.
  destruct (index_unique_sorted (index_sort (collection ≫= hit_layers layer_bounds)))
    as [Hnodup Helem]; [apply index_sort_sorted|].
  apply Permutation_length, NoDup_Permutation;
    [done|apply NoDup_layers_reached|].
  intros k. by rewrite Helem, index_sort_perm, elem_of_layers_reached.
Qed.

(** The cut is a decision on the event: with three layers reached the call
    is the plain conversion, otherwise it returns the empty columns. *)
Lemma cut_decision (collection : HitCollection) layer_bounds name_map :
  intervals layer_bounds -> index_exact (length layer_bounds) ->
  _convert_to_cut_analysis collection layer_bounds name_map
  = if bool_decide (3 <= length (layers_reached collection layer_bounds))%nat
    then _convert_to_analysis collection name_map
    else Returns (replicate 14 []).
Proof.
  intros Hbounds Hexact. unfold _convert_to_cut_analysis, _convert_to_analysis.
  rewrite empty_columns_returns, !bind_Returns.
  rewrite (collect_layers_returns _ _ Hbounds), bind_Returns.
  by rewrite (distinct_layers _ _ Hexact).
Qed.

Lemma index_exact_below n : (Z.of_nat n <= 2 ^ 53)%Z -> index_exact n.
Proof.
  intros Hn a b Ha Hb. unfold index_double.
  rewrite DoubleFacts.to_double_ltb, DoubleFacts.to_double_eqb by lia. split.
  - destruct (Z.ltb_spec (Z.of_nat a) (Z.of_nat b)), (Nat.ltb_spec a b); done || lia.
  - destruct (Z.eqb_spec (Z.of_nat a) (Z.of_nat b)), (Nat.eqb_spec a b); done || lia.
Qed.

Lemma elem_of_layers_reached_hit (collection : HitCollection) layer_bounds k :
  k ∈ layers_reached collection layer_bounds
  <-> exists hit lower upper rest,
        hit ∈ collection
        ∧ layer_bounds !! k = Some (lower :: upper :: rest)
        ∧ (0 <? py (GetMomentum hit)) = true
        ∧ (0.5 <? GetDeposit hit) = true
        ∧ (7000 <? y (GetPosition hit)) = true
        ∧ (lower <? y (GetPosition hit)) = true
        ∧ (y (GetPosition hit) <? upper) = true.
Proof.
  unfold layers_reached. rewrite list_elem_of_filter, elem_of_seq, Exists_exists.
  unfold reaches, strictly_inside. split.
  - intros [(hit & Hhit & Hreach) _]. rewrite !andb_true_iff in Hreach.
    destruct Hreach as [[[Hpy Hdeposit] Hy] Hinside].
    destruct (layer_bounds !! k) as [[|lower [|upper rest]]|]; try done.
    apply andb_true_iff in Hinside as [Hlower Hupper].
    by exists hit, lower, upper, rest.
  - intros (hit & lower & upper & rest & Hhit & Hk & Hpy & Hdeposit & Hy & Hlower & Hupper).
    split.
    + exists hit. split; [done|]. by rewrite Hk, Hpy, Hdeposit, Hy, Hlower, Hupper.
    + apply lookup_lt_Some in Hk. lia.
Qed.

(** C1. For every hit collection and every list of [[min, max]] intervals
    (at most [2^53] of them), the cut conversion decides on the distinct
    interval indices [k] for which some hit with momentum-py > 0, deposit >
    0.5 and position-y > 7000 has its position-y strictly between
    [layer_bounds[k][0]] and [layer_bounds[k][1]]. With at least 3 such
    indices the output has one row per hit of the whole collection, in
    collection order and in the 14-column layout (the mapping yielding a
    number for every chamber id); otherwise the output is the empty table,
    each of its 14 columns of length zero. *)
Theorem convert_to_cut_analysis_layers (collection : HitCollection)
    (layer_bounds : list (list double)) (name_map : string -> outcome double) :
  intervals layer_bounds ->
  (Z.of_nat (length layer_bounds) <= 2 ^ 53)%Z ->
  NoDup (layers_reached collection layer_bounds)
  ∧ (forall k, k ∈ layers_reached collection layer_bounds <->
       exists hit lower upper rest,
         hit ∈ collection
         ∧ layer_bounds !! k = Some (lower :: upper :: rest)
         ∧ (0 <? py (GetMomentum hit)) = true
         ∧ (0.5 <? GetDeposit hit) = true
         ∧ (7000 <? y (GetPosition hit)) = true
         ∧ (lower <? y (GetPosition hit)) = true
         ∧ (y (GetPosition hit) <? upper) = true)
  ∧ ((3 <= length (layers_reached collection layer_bounds))%nat ->
     forall numeric : string -> double,
       (forall hit, hit ∈ collection ->
          name_map (GetChamberID hit) = Returns (numeric (GetChamberID hit))) ->
       exists out,
         _convert_to_cut_analysis collection layer_bounds name_map = Returns out
         ∧ length out = 14%nat
         ∧ (forall column, column ∈ out -> length column = GetSize collection)
         ∧ forall i hit, collection !! i = Some hit ->
             row_of out i = Some <$> hit_row (numeric (GetChamberID hit)) hit)
  ∧ ((length (layers_reached collection layer_bounds) < 3)%nat ->
     exists out,
       _convert_to_cut_analysis collection layer_bounds name_map = Returns out
       ∧ length out = 14%nat
       ∧ forall column, column ∈ out -> column = []).
Proof.
  intros Hbounds Hsize.
  pose proof (cut_decision collection layer_bounds name_map Hbounds
                (index_exact_below _ Hsize)) as Hcut.
  split; [apply NoDup_layers_reached|].
  split; [apply elem_of_layers_reached_hit|]. split.
  - intros Hthree numeric Hmap. exists (hit_table numeric collection).
    rewrite Hcut, bool_decide_eq_true_2 by done.
    split; [by apply convert_to_analysis_returns|].
    split; [apply length_table|]. split.
    + intros column Hcolumn. apply length_table_column in Hcolumn.
      by rewrite length_fmap in Hcolumn.
    + intros i hit Hhit.
      apply (row_of_table 14 _ i (hit_row (numeric (GetChamberID hit)) hit)); [|done].
      by rewrite list_lookup_fmap, Hhit.
  - intros Hless. exists (replicate 14 []).
    rewrite Hcut, bool_decide_eq_false_2 by lia.
    split; [done|]. split; [done|].
    by intros column [-> _]%elem_of_replicate.
Qed.

Lemma intervals_sample_bounds : intervals sample_bounds.
Proof. repeat constructor. Qed.

Lemma convert_to_cut_analysis_layers_witness :
  layers_reached (two_layers ++ [third_layer]) sample_bounds = [0; 1; 2]%nat
  ∧ exists out,
      _convert_to_cut_analysis (two_layers ++ [third_layer]) sample_bounds
        (fun id => mret (lookup_or_minus_1 sample_map id)) = Returns out
      ∧ length out = 14%nat
      ∧ out !! 0%nat = Some [0.75; 0.75; 0.25; 0.75]
      ∧ out !! 2%nat = Some [1; 2; 3; 3].
Proof.
  split; [by vm_compute|].
  destruct (convert_to_cut_analysis_layers (two_layers ++ [third_layer]) sample_bounds
    (fun id => mret (lookup_or_minus_1 sample_map id)))
    as (_ & _ & Haccept & _).
  - exact intervals_sample_bounds.
  - simpl. lia.
  - destruct (Haccept ltac:(vm_compute; lia) (lookup_or_minus_1 sample_map))
      as (out & Hrun & Hlen & _).
    + intros hit _. reflexivity.
    + exists out. split; [exact Hrun|]. split; [exact Hlen|].
      vm_compute in Hrun. injection Hrun as <-. by split.
Defined.

(** C5. With [savecut] false the cut entry point returns what the plain
    14-column conversion of the collection returns; and with [savecut] true,
    whenever the collection reaches at least 3 distinct layers, it again
    returns what the plain conversion returns: every hit is exported, not
    only the hits that passed the tests. The layer bounds are intervals
    [[min, max]], at most [2^53] of them. *)
Theorem ConvertToAnalysis_cut_all_hits (stold : string -> outcome double)
    (collection : HitCollection) (layer_bounds : list (list double)) :
  ConvertToAnalysis_cut stold collection layer_bounds false
    = ConvertToAnalysis_hits stold collection
  ∧ (intervals layer_bounds ->
     (Z.of_nat (length layer_bounds) <= 2 ^ 53)%Z ->
     (3 <= length (layers_reached collection layer_bounds))%nat ->
     ConvertToAnalysis_cut stold collection layer_bounds true
       = ConvertToAnalysis_hits stold collection).
Proof.
  split; [reflexivity|].
  intros Hbounds Hsize Hthree. unfold ConvertToAnalysis_cut, ConvertToAnalysis_hits.
  rewrite (cut_decision _ _ _ Hbounds (index_exact_below _ Hsize)).
  by rewrite bool_decide_eq_true_2.
Qed.

Lemma ConvertToAnalysis_cut_all_hits_witness :
  ConvertToAnalysis_cut sample_stold (two_layers ++ [third_layer]) sample_bounds true
    = ConvertToAnalysis_hits sample_stold (two_layers ++ [third_layer])
  ∧ ConvertToAnalysis_hits sample_stold (two_layers ++ [third_layer])
    = Returns (hit_table (lookup_or_minus_1 sample_map) (two_layers ++ [third_layer])).
Proof.
  split; [|by vm_compute].
  apply (ConvertToAnalysis_cut_all_hits sample_stold (two_layers ++ [third_layer])
           sample_bounds).
  - exact intervals_sample_bounds.
  - simpl. lia.
  - vm_compute. lia.
Defined.

Lemma example_bounds_unreachable hit k : reaches example_bounds hit k = false.
Proof.
  apply not_true_is_false. unfold reaches. rewrite !andb_true_iff.
  intros [[_ Hy] Hinside].
  destruct k as [|[|[|k]]]; simpl in Hinside; [| | |done];
    apply andb_true_iff in Hinside as [_ Hupper].
  - by rewrite (DoubleFacts.above_7000_not_below _ 10 5629499534213120 (-49)) in Hupper.
  - by rewrite (DoubleFacts.above_7000_not_below _ 20 5629499534213120 (-48)) in Hupper.
  - by rewrite (DoubleFacts.above_7000_not_below _ 30 8444249301319680 (-48)) in Hupper.
Qed.

(** The bounds of the example, [[0,10]], [[10,20]], [[20,30]]: no
    position-y is above 7000 and inside one of them, so no hit reaches a
    layer and every collection gets the empty table, also one with a hit at
    each of the heights 5, 15 and 25. *)
Lemma example_bounds_reject_all :
  (¬ exists hit k, reaches example_bounds hit k = true)
  ∧ (forall (collection : HitCollection) name_map,
       _convert_to_cut_analysis collection example_bounds name_map
       = Returns (replicate 14 []))
  ∧ _convert_to_cut_analysis
      [sample_hit "1" 0.75 5; sample_hit "2" 0.75 15; sample_hit "3" 0.75 25]
      example_bounds (fun id => mret (lookup_or_minus_1 sample_map id))
    = Returns (replicate 14 []).
Proof.
  assert (forall (collection : HitCollection) name_map,
    _convert_to_cut_analysis collection example_bounds name_map
    = Returns (replicate 14 [])) as Hreject.
  { intros collection name_map.
    rewrite cut_decision;
      [|repeat constructor|apply index_exact_below; simpl; lia].
    assert (layers_reached collection example_bounds = []) as ->; [|done].
    apply elem_of_nil_inv. intros k (hit & Hk & _)%elem_of_layers_reached%list_elem_of_bind.
    apply elem_of_hit_layers in Hk as [_ Hk].
    by rewrite example_bounds_unreachable in Hk. }
  split; [|split; [exact Hreject|apply Hreject]].
  intros (hit & k & Hk). by rewrite example_bounds_unreachable in Hk.
Qed.

Lemma layers_reached_subseteq (collection collection' : HitCollection) layer_bounds k :
  (forall hit, hit ∈ collection -> hit ∈ collection') ->
  k ∈ layers_reached collection layer_bounds ->
  k ∈ layers_reached collection' layer_bounds.
Proof.
  intros Hsub. rewrite !elem_of_layers_reached, !list_elem_of_bind.
  intros (hit & Hk & Hhit). exists hit. split; [done|]. by apply Hsub.
Qed.




End CutFacts.

(** ** More on settings *)

Module SettingsMore.

Import Analysis Analysis.detail PrefixSpec.

Lemma append_assoc (s1 s2 s3 : string) : (s1 +:+ s2) +:+ s3 = s1 +:+ s2 +:+ s3.
Proof.
  induction s1 as [|c s1 IH]; [done|].
  cbv [String.append] in *. fold String.append in *. by rewrite IH.
Qed.

Lemma length_append (s1 s2 : string) :
  String.length (s1 +:+ s2) = String.length s1 + String.length s2.
Proof.
  induction s1 as [|c s1 IH]; [done|].
  cbv [String.append]. fold String.append. simpl. by rewrite IH.
Qed.

(** The loop of the builders over two parallel sequences. *)
Lemma pair_loop (entry : string -> string -> SimSetting) (names texts : list string) :
  length names = length texts ->
  for_range (length names) (fun i out =>
      n ← at_index names i;
      t ← at_index texts i;
      Returns (push_back out (entry n t))) []
  = Returns (zip_with entry names texts).
Proof.
  intros Hlen.
  destruct (for_range_invariant
    (fun i out => out = zip_with entry (take i names) (take i texts))
    (length names)
    (fun i out => n ← at_index names i; t ← at_index texts i;
                  Returns (push_back out (entry n t))) []) as (out & Hrun & ->);
    [| |by rewrite firstn_all, (take_ge texts) in Hrun by lia].
  - done.
  - intros i out Hi ->.
    destruct (lookup_lt_is_Some_2 names i) as [n Hn]; [done|].
    destruct (lookup_lt_is_Some_2 texts i) as [t Ht]; [lia|].
    rewrite (at_index_Some _ _ _ Hn), (at_index_Some _ _ _ Ht). simpl.
    eexists; split; [done|].
    rewrite (take_S_r _ _ _ Hn), (take_S_r _ _ _ Ht).
    rewrite zip_with_app by (rewrite !length_take; lia). done.
Qed.

Lemma Settings_cases (names texts : list string) :
  Settings names texts
  = Returns (if bool_decide (length names = length texts)
             then zip_with SimSetting2 names texts else []).
Proof.
  unfold Settings. destruct (decide (length names = length texts)) as [Hlen|Hlen].
  - rewrite (bool_decide_eq_false_2 (length names ≠ length texts)) by (by intros []).
    rewrite (bool_decide_eq_true_2 (length names = length texts)) by done.
    destruct names as [|n names], texts as [|t texts]; try done.
    by apply (pair_loop SimSetting2).
  - rewrite (bool_decide_eq_true_2 (length names ≠ length texts)) by done.
    by rewrite (bool_decide_eq_false_2 (length names = length texts)).
Qed.

Lemma Settings_prefix_cases (prefix : string) (names texts : list string) :
  Settings_prefix prefix names texts
  = Returns (if bool_decide (length names = length texts)
             then zip_with (SimSetting3 prefix) names texts else []).
Proof.
  unfold Settings_prefix. destruct (decide (length names = length texts)) as [Hlen|Hlen].
  - rewrite (bool_decide_eq_false_2 (length names ≠ length texts)) by (by intros []).
    rewrite (bool_decide_eq_true_2 (length names = length texts)) by done.
    destruct names as [|n names], texts as [|t texts]; try done.
    by apply (pair_loop (SimSetting3 prefix)).
  - rewrite (bool_decide_eq_true_2 (length names ≠ length texts)) by done.
    by rewrite (bool_decide_eq_false_2 (length names = length texts)).
Qed.

(** X1. [Settings(prefix, names, texts)] returns what [Settings(names,
    texts)] returns with [prefix] put before every name, the empty list of
    the degenerate cases included; with the empty prefix the two overloads
    agree. *)
Theorem Settings_prefix_is_prefixed (prefix : string) (names texts : list string) :
  Settings_prefix prefix names texts
    = then_map (with_prefix prefix) (Settings names texts)
  ∧ Settings_prefix "" names texts = Settings names texts.
Proof.
  rewrite !Settings_prefix_cases, Settings_cases. unfold then_map. split.
  - case_bool_decide as Hlen; [|done]. f_equal. clear Hlen.
    revert texts. induction names as [|n names IH]; intros [|t texts]; try done.
    simpl. f_equal. apply IH.
  - done.
Qed.

(** X2. Built from sequences of equal length, the list gives the two
    sequences back: its names are [names] and its texts are [texts], in
    order. *)
Theorem Settings_round_trip (names texts : list string) :
  length names = length texts ->
  exists out,
    Settings names texts = Returns out
    ∧ name <$> out = names
    ∧ text <$> out = texts.
Proof.
  intros Hlen. eexists. split; [apply Settings_cases|].
  rewrite bool_decide_eq_true_2 by done.
  revert texts Hlen. induction names as [|n names IH]; intros [|t texts] Hlen; try done.
  simpl in Hlen. destruct (IH texts) as [Hnames Htexts]; [lia|].
  split; simpl; by f_equal.
Qed.

Lemma Settings_round_trip_witness :
  exists out,
    Settings ["A"; "B"] ["1"; "2"] = Returns out
    ∧ name <$> out = ["A"; "B"]
    ∧ text <$> out = ["1"; "2"].
Proof. apply (Settings_round_trip ["A"; "B"] ["1"; "2"]). reflexivity. Defined.

(** The loop of the indexed builders. *)
Lemma indexed_loop (entry : nat -> string -> SimSetting) (texts : list string) :
  for_range (length texts) (fun i out =>
      t ← at_index texts i;
      Returns (push_back out (entry i t))) []
  = Returns (imap entry texts).
Proof.
  destruct (for_range_invariant
    (fun i out => out = imap entry (take i texts))
    (length texts)
    (fun i out => t ← at_index texts i; Returns (push_back out (entry i t))) [])
    as (out & Hrun & ->); [| |by rewrite firstn_all in Hrun].
  - done.
  - intros i out Hi ->.
    destruct (lookup_lt_is_Some_2 texts i) as [t Ht]; [done|].
    rewrite (at_index_Some _ _ _ Ht). simpl.
    eexists; split; [done|].
    rewrite (take_S_r _ _ _ Ht), imap_app. simpl.
    rewrite length_take, Nat.min_l, Nat.add_0_r by lia. done.
Qed.

Lemma IndexedSettings_cases (name : string) (texts : list string) (starting_index : N) :
  IndexedSettings name texts starting_index
  = Returns (imap (fun i t =>
      SimSetting2 (name +:+ to_string (size_t_add starting_index (N.of_nat i))) t) texts).
Proof.
  unfold IndexedSettings. case_bool_decide as Hempty.
  - by destruct texts.
  - apply (indexed_loop (fun i t =>
      SimSetting2 (name +:+ to_string (size_t_add starting_index (N.of_nat i))) t)).
Qed.

Lemma IndexedSettings_prefix_cases (prefix name : string) (texts : list string)
    (starting_index : N) :
  IndexedSettings_prefix prefix name texts starting_index
  = Returns (imap (fun i t =>
      SimSetting3 prefix
        (name +:+ to_string (size_t_add starting_index (N.of_nat i))) t) texts).
Proof.
  unfold IndexedSettings_prefix. case_bool_decide as Hempty.
  - by destruct texts.
  - apply (indexed_loop (fun i t =>
      SimSetting3 prefix
        (name +:+ to_string (size_t_add starting_index (N.of_nat i))) t)).
Qed.

(** X3. [IndexedSettings(prefix, name, texts, start)] returns what
    [IndexedSettings(name, texts, start)] returns with [prefix] put before
    every name, which is also what the plain overload returns for the base
    name [prefix + name]. *)
Theorem IndexedSettings_prefix_is_prefixed (prefix name : string) (texts : list string)
    (starting_index : N) :
  IndexedSettings_prefix prefix name texts starting_index
    = then_map (with_prefix prefix) (IndexedSettings name texts starting_index)
  ∧ IndexedSettings_prefix prefix name texts starting_index
    = IndexedSettings (prefix +:+ name) texts starting_index.
Proof.
  rewrite IndexedSettings_prefix_cases, !IndexedSettings_cases. unfold then_map.
  split; f_equal.
  - by rewrite fmap_imap.
  - apply imap_ext. intros i t _. unfold SimSetting3, SimSetting2.
    by rewrite append_assoc.
Qed.

Lemma size_t_add_inj (starting_index i j : N) :
  (i < 2 ^ 64)%N -> (j < 2 ^ 64)%N ->
  size_t_add starting_index i = size_t_add starting_index j -> i = j.
Proof.
  unfold size_t_add, size_t_max. intros Hi Hj Heq.
  pose proof (N.div_mod' (starting_index + i) (2 ^ 64)) as Hdi.
  pose proof (N.div_mod' (starting_index + j) (2 ^ 64)) as Hdj.
  rewrite Heq in Hdi.
  set (qi := ((starting_index + i) / 2 ^ 64)%N) in *.
  set (qj := ((starting_index + j) / 2 ^ 64)%N) in *.
  set (r := ((starting_index + j) mod 2 ^ 64)%N) in *.
  assert (qi = qj) by lia. lia.
Qed.

(** X4. The names [IndexedSettings] gives to the texts of one call are
    pairwise distinct, wrap-around or not, as long as there are at most
    [2^64] texts (which every [std::vector] satisfies). *)
Theorem IndexedSettings_names_distinct (name : string) (texts : list string)
    (starting_index : N) :
  (N.of_nat (length texts) <= 2 ^ 64)%N ->
  exists out,
    IndexedSettings name texts starting_index = Returns out
    ∧ length out = length texts
    ∧ NoDup (Analysis.name <$> out).
Proof.
  intros Hsize. eexists. split; [apply IndexedSettings_cases|].
  split; [by rewrite length_imap|].
  apply NoDup_alt. intros i j s. rewrite !list_lookup_fmap, !list_lookup_imap.
  destruct (texts !! i) as [ti|] eqn:Hi; [|done].
  destruct (texts !! j) as [tj|] eqn:Hj; [|done].
  simpl. intros [= <-] [= Heq].
  apply lookup_lt_Some in Hi, Hj.
  apply (inj (String.append name)), (inj pretty) in Heq.
  apply size_t_add_inj in Heq; lia.
Qed.

Lemma IndexedSettings_names_distinct_witness :
  exists out,
    IndexedSettings "X" ["a"; "b"; "c"] 18446744073709551615 = Returns out
    ∧ length out = 3
    ∧ NoDup (Analysis.name <$> out).
Proof.
  apply (IndexedSettings_names_distinct "X" ["a"; "b"; "c"] 18446744073709551615).
  vm_compute. discriminate.
Defined.

Lemma AddSettings_pairs (list : SimSettingList) (name text : string)
    (rest : Datatypes.list (string * string)) :
  AddSettings list name text rest
  = list ++ zip_with SimSetting2 (name :: rest.*1) (text :: rest.*2).
Proof.
  revert list name text. induction rest as [|[name' text'] rest IH]; intros list name text.
  - done.
  - simpl. rewrite IH. unfold AddSetting, push_back. by rewrite <- (assoc_L (++)).
Qed.

Lemma AddSettingsWithPrefix_pairs (list : SimSettingList) (prefix name text : string)
    (rest : Datatypes.list (string * string)) :
  AddSettingsWithPrefix list prefix name text rest
  = list ++ zip_with (SimSetting3 prefix) (name :: rest.*1) (text :: rest.*2).
Proof.
  revert list name text. induction rest as [|[name' text'] rest IH]; intros list name text.
  - done.
  - simpl. rewrite IH. unfold AddSettingWithPrefix, push_back.
    by rewrite <- (assoc_L (++)).
Qed.

(** X5. The variadic [Settings(name, text, rest...)] returns what the
    overload on two parallel sequences returns for the names and the texts
    of the same pairs, and likewise with a prefix; the list has one entry
    per pair and is never empty. *)
Theorem Settings_variadic_is_parallel (prefix name text : string)
    (rest : list (string * string)) :
  Settings (name :: rest.*1) (text :: rest.*2)
    = Returns (Settings_variadic name text rest)
  ∧ Settings_prefix prefix (name :: rest.*1) (text :: rest.*2)
    = Returns (Settings_variadic_prefix prefix name text rest)
  ∧ length (Settings_variadic name text rest) = S (length rest)
  ∧ length (Settings_variadic_prefix prefix name text rest) = S (length rest).
Proof.
  unfold Settings_variadic, Settings_variadic_prefix.
  rewrite AddSettings_pairs, AddSettingsWithPrefix_pairs.
  rewrite Settings_cases, Settings_prefix_cases.
  rewrite !bool_decide_eq_true_2 by (simpl; by rewrite !length_fmap).
  repeat split; simpl; by rewrite length_zip_with, !length_fmap, ?Nat.min_id.
Qed.

End SettingsMore.

(** ** Primaries of an event *)

Module PrimariesFacts.

Import Analysis.ROOT Tracking Primaries Tables MoreSpec TableFacts.

Local Open Scope float_scope.

Lemma to_double_0 : to_double 0 = 0.
Proof. reflexivity. Qed.

Section Units.

Variables Units_Time Units_Length Units_Energy Units_Momentum : double.

Abbreviation primary_row := (primary_row Units_Time Units_Length Units_Energy Units_Momentum).
Abbreviation primary_rows := (primary_rows Units_Time Units_Length Units_Energy Units_Momentum).
Abbreviation push_primary := (push_primary Units_Time Units_Length Units_Energy Units_Momentum).

Lemma push_primary_row vertex primary rows :
  push_primary vertex primary (table 12 rows)
  = Returns (table 12 (rows ++ [primary_row vertex primary])).
Proof.
  unfold Primaries.push_primary, table. simpl. unfold push_back.
  rewrite !fmap_app. simpl. by rewrite to_double_0, to_double_1.
Qed.

Lemma vertex_loop vertex rows :
  for_range (GetNumberOfParticle vertex) (fun j out =>
      primary ← GetPrimary vertex j;
      push_primary vertex primary out) (table 12 rows)
  = Returns (table 12 (rows ++ (primary_row vertex <$> primaries vertex))).
Proof.
  unfold GetNumberOfParticle, GetPrimary.
  destruct (for_range_invariant
    (fun j (out : DataEntryList) =>
       out = table 12 (rows ++ (primary_row vertex <$> take j (primaries vertex))))
    (length (primaries vertex))
    (fun j out => primary ← at_index (primaries vertex) j;
                  push_primary vertex primary out)
    (table 12 rows)) as (out & Hrun & ->);
    [| |by rewrite firstn_all in Hrun].
  - simpl. by rewrite app_nil_r.
  - intros j out Hj ->.
    destruct (lookup_lt_is_Some_2 (primaries vertex) j) as [primary Hprimary]; [done|].
    rewrite (at_index_Some _ _ _ Hprimary), bind_Returns, push_primary_row.
    eexists. split; [done|].
    by rewrite (take_S_r _ _ _ Hprimary), fmap_app, (assoc_L (++)).
Qed.

Lemma event_loop (event : G4Event) :
  for_range (GetNumberOfPrimaryVertex event) (fun i out =>
      vertex ← GetPrimaryVertex event i;
      let vertex_size := GetNumberOfParticle vertex in
      for_range vertex_size (fun j out =>
        primary ← GetPrimary vertex j;
        push_primary vertex primary out) out) (replicate 12 [])
  = Returns (table 12 (primary_rows event)).
Proof.
  unfold GetNumberOfPrimaryVertex, GetPrimaryVertex.
  destruct (for_range_invariant
    (fun i (out : DataEntryList) => out = table 12 (primary_rows (take i event)))
    (length event)
    (fun i out =>
      vertex ← at_index event i;
      let vertex_size := GetNumberOfParticle vertex in
      for_range vertex_size (fun j out =>
        primary ← GetPrimary vertex j;
        push_primary vertex primary out) out) (replicate 12 []))
    as (out & Hrun & ->); [| |by rewrite firstn_all in Hrun].
  - done.
  - intros i out Hi ->.
    destruct (lookup_lt_is_Some_2 event i) as [vertex Hvertex]; [done|].
    rewrite (at_index_Some _ _ _ Hvertex), bind_Returns. cbv zeta.
    rewrite vertex_loop. eexists. split; [done|].
    unfold MoreSpec.primary_rows.
    rewrite (take_S_r _ _ _ Hvertex), bind_app. simpl. by rewrite app_nil_r.
Qed.

Lemma size_loop (event : G4Event) :
  returns (for_range (GetNumberOfPrimaryVertex event) (fun i size =>
    vertex ← GetPrimaryVertex event i;
    mret (size_t_add size (N.of_nat (GetNumberOfParticle vertex)))) 0%N).
Proof.
  unfold GetNumberOfPrimaryVertex, GetPrimaryVertex.
  destruct (for_range_invariant (fun _ (_ : N) => True) (length event)
    (fun i size =>
      vertex ← at_index event i;
      mret (size_t_add size (N.of_nat (GetNumberOfParticle vertex)))) 0%N)
    as (size & Hrun & _); [done| |by exists size].
  intros i size Hi _.
  destruct (lookup_lt_is_Some_2 event i) as [vertex Hvertex]; [done|].
  rewrite (at_index_Some _ _ _ Hvertex). by eexists.
Qed.

Lemma length_primary_rows (event : G4Event) :
  length (primary_rows event) = sum_list (GetNumberOfParticle <$> event).
Proof.
  unfold MoreSpec.primary_rows. induction event as [|vertex event IH]; [done|].
  rewrite bind_cons, length_app, length_fmap, IH. done.
Qed.

(** X6. For every event the conversion of its primaries returns 12 columns,
    each as long as the number of primaries of all vertices together (an
    event without vertices gives 12 empty columns); the rows come vertex by
    vertex and, within a vertex, primary by primary, and a row holds: pdg
    code, track id, 0, the time and the position of the vertex and the
    energy and momentum of the primary, each divided by its unit, and 1. *)
Theorem ConvertToAnalysis_event_rows (event : G4Event) :
  exists out,
    ConvertToAnalysis_event Units_Time Units_Length Units_Energy Units_Momentum event
      = Returns out
    ∧ length out = 12%nat
    ∧ (forall column, column ∈ out ->
         length column = sum_list (GetNumberOfParticle <$> event))
    ∧ (forall i row, primary_rows event !! i = Some row ->
         row_of out i = Some <$> row)
    ∧ primary_rows event
      = event ≫= fun vertex =>
          (fun primary =>
             [ to_double (PDGcode primary); to_double (TrackID primary); 0;
               T0 vertex / Units_Time;
               X0 vertex / Units_Length; Y0 vertex / Units_Length;
               Z0 vertex / Units_Length;
               TotalEnergy primary / Units_Energy;
               Primaries.x (Momentum primary) / Units_Momentum;
               Primaries.y (Momentum primary) / Units_Momentum;
               Primaries.z (Momentum primary) / Units_Momentum;
               1 ]) <$> primaries vertex.
Proof.
  exists (table 12 (primary_rows event)).
  split; [|split; [apply length_table|split; [|split; [|done]]]].
  - unfold ConvertToAnalysis_event. destruct (size_loop event) as [size ->].
    rewrite bind_Returns, empty_columns_returns, bind_Returns. apply event_loop.
  - intros column Hcolumn. apply length_table_column in Hcolumn.
    by rewrite Hcolumn, length_primary_rows.
  - intros i row Hrow. apply (row_of_table 12 _ i row); [done|].
    unfold MoreSpec.primary_rows in Hrow.
    apply list_elem_of_lookup_2, list_elem_of_bind in Hrow as (vertex & Hrow & _).
    by apply list_elem_of_fmap in Hrow as (primary & -> & _).
Qed.

End Units.

End PrimariesFacts.

(** ** The order of doubles *)

Module OrderFacts.

Import SpecFloat.

Ltac fold_pos_compare :=
  repeat match goal with
  | |- context [Pos.compare_cont Eq ?p ?q] =>
      change (Pos.compare_cont Eq p q) with (Pos.compare p q)
  end.

Lemma SFltb_trans x y z : SFltb x y = true -> SFltb y z = true -> SFltb x z = true.
Proof.
  unfold SFltb, SFcompare.
  destruct x as [[]|[]| |[] mx ex], y as [[]|[]| |[] my ey], z as [[]|[]| |[] mz ez];
    try done; fold_pos_compare;
    destruct (Z.compare_spec ex ey), (Z.compare_spec ey ez), (Z.compare_spec ex ez);
    try done; try lia; subst;
    destruct (Pos.compare_spec mx my), (Pos.compare_spec my mz), (Pos.compare_spec mx mz);
    simpl; try done; try lia.
Qed.

Lemma SFltb_irrefl x : SFltb x x = false.
Proof.
  unfold SFltb, SFcompare. destruct x as [[]|[]| |[] mx ex]; try done;
    fold_pos_compare; by rewrite Z.compare_refl, Pos.compare_refl.
Qed.

(** [<] on doubles is transitive and irreflexive, NaN and the infinities
    included. *)
Lemma ltb_trans (u v w : double) :
  PrimFloat.ltb u v = true -> PrimFloat.ltb v w = true -> PrimFloat.ltb u w = true.
Proof. rewrite !FloatAxioms.ltb_spec. apply SFltb_trans. Qed.

Lemma ltb_irrefl (v : double) : PrimFloat.ltb v v = false.
Proof. rewrite FloatAxioms.ltb_spec. apply SFltb_irrefl. Qed.

Lemma ltb_asym (u v : double) :
  PrimFloat.ltb u v = true -> PrimFloat.ltb v u = false.
Proof.
  intros Huv. apply not_true_is_false. intros Hvu.
  pose proof (ltb_trans _ _ _ Huv Hvu) as Huu. by rewrite ltb_irrefl in Huu.
Qed.

End OrderFacts.

(** ** Between two depths *)

Module CavernFacts.

Import Cavern OrderFacts.

Local Open Scope float_scope.

(** X7. When [_between] holds, the lower bound is below the upper bound,
    so the test fails on an empty or inverted interval; and a target between
    two bounds is between no two bounds that start where these end or end
    where these start. *)
Theorem between_ordered (min_layer max_layer target : double) :
  _between min_layer max_layer target = true ->
  (min_layer <? max_layer) = true
  ∧ (max_layer <? min_layer) = false
  ∧ (forall upper, _between max_layer upper target = false)
  ∧ (forall lower, _between lower min_layer target = false).
Proof.
  unfold _between. intros [Hmin Hmax]%andb_true_iff.
  pose proof (ltb_trans _ _ _ Hmin Hmax) as Horder.
  split; [done|]. split; [by apply ltb_asym|]. split.
  - intros upper. by rewrite (ltb_asym _ _ Hmax).
  - intros lower. by rewrite (ltb_asym _ _ Hmin), andb_false_r.
Qed.

Lemma between_ordered_witness :
  (0 <? 10) = true
  ∧ (10 <? 0) = false
  ∧ (forall upper, _between 10 upper 5 = false)
  ∧ (forall lower, _between lower 0 5 = false).
Proof. apply (between_ordered 0 10 5). reflexivity. Defined.

End CavernFacts.

(** ** The header of a printed collection *)

Module RenderingFacts.

Import Rendering MoreSpec SettingsMore.

Lemma length_string_of_copies n c : String.length (string_of_copies n c) = n.
Proof. induction n as [|n IH]; simpl; [done|]. by rewrite IH. Qed.

(** X8. For a collection without hits nothing is written. Otherwise the
    header written before the hits is a blank line and a box of three lines:
    a rule of dashes, the title with the event id and the hit count, and the
    same rule again; the rule is exactly as long as the title, whatever the
    number of digits (or the sign) of the two numbers. *)
Theorem header_box_aligned (event_id : Z) (count : N) (os : string) :
  write_header event_id 0 os = os
  ∧ (count ≠ 0%N ->
     write_header event_id count os
     = os +:+ LF +:+ LF
       +:+ boxside event_id count +:+ LF
       +:+ title event_id count +:+ LF
       +:+ boxside event_id count +:+ LF)
  ∧ String.length (boxside event_id count) = String.length (title event_id count)
  ∧ boxside event_id count
    = string_of_copies (String.length (title event_id count)) "-"%char.
Proof.
  assert (String.length (boxside event_id count)
          = String.length (title event_id count)) as Hlen.
  { unfold boxside, title. rewrite length_string_of_copies, !length_append. simpl. lia. }
  split; [done|]. split; [|split; [done|]].
  - intros Hcount. unfold write_header, box, title.
    rewrite bool_decide_eq_false_2 by done. by rewrite !append_assoc.
  - rewrite <- Hlen. unfold boxside. by rewrite length_string_of_copies.
Qed.

End RenderingFacts.

(** ** More on the cut *)

Module CutMore.

Import Analysis.ROOT Tracking Tables Cut MoreSpec Samples TableFacts CutFacts OrderFacts.

Local Open Scope float_scope.

Section LoopsThatDoNotThrow.

Context {State : Type}.
Implicit Types (body : nat -> State -> outcome State).

Lemma for_from_never_throws first count body (s : State) exn :
  (forall i s', body i s' ≠ Throws exn) ->
  for_from first count body s ≠ Throws exn.
Proof.
  intros Hbody. revert first s.
  induction count as [|count IH]; intros first s; simpl; [done|].
  destruct (body first s) as [s'| |] eqn:Hrun; simpl; [apply IH| |done].
  intros [= ->]. by destruct (Hbody first s).
Qed.

(** A loop none of whose iterations throws and one of whose iterations is
    undefined is undefined. *)
Lemma for_from_Undefined_somewhere first count body (s : State) j :
  (forall i s' exn, body i s' ≠ Throws exn) ->
  (first <= j < first + count)%nat ->
  (forall s', body j s' = Undefined) ->
  for_from first count body s = Undefined.
Proof.
  intros Hbody. revert first s.
  induction count as [|count IH]; intros first s Hj Hat; [lia|]. simpl.
  destruct (body first s) as [s'|exn|] eqn:Hrun; simpl;
    [|by destruct (Hbody first s exn)|done].
  apply IH; [|done].
  destruct (decide (j = first)) as [->|]; [|lia]. by rewrite Hat in Hrun.
Qed.

End LoopsThatDoNotThrow.

Lemma in_layer_never_throws hit layer_bounds k exn :
  in_layer hit layer_bounds k ≠ Throws exn.
Proof.
  unfold in_layer, at_index.
  destruct (layer_bounds !! k) as [bounds|]; simpl; [|done].
  destruct bounds as [|lower [|upper rest]]; simpl; try done;
    by destruct (lower <? y (GetPosition hit)).
Qed.

Lemma in_layer_reads_past hit layer_bounds k bounds :
  layer_bounds !! k = Some bounds -> reads_past hit bounds ->
  in_layer hit layer_bounds k = Undefined.
Proof.
  intros Hk Hpast. unfold in_layer. rewrite (at_index_Some _ _ _ Hk), bind_Returns.
  destruct bounds as [|lower [|upper rest]]; simpl in *; [done| |done].
  by rewrite Hpast.
Qed.

Lemma layer_step_never_throws hit layer_bounds k (tracker_layers : list double) exn :
  (inside ← in_layer hit layer_bounds k;
   if inside : bool
   then mret (push_back tracker_layers (to_double (Z.of_nat k)))
   else mret tracker_layers) ≠ Throws exn.
Proof.
  pose proof (in_layer_never_throws hit layer_bounds k exn) as Hin.
  destruct (in_layer hit layer_bounds k) as [[]|exn'|]; simpl;
    [by unfold mret, outcome_ret..|intros [= ->]; by destruct Hin|done].
Qed.

Lemma collect_layers_reads_past (collection : HitCollection) layer_bounds hit bounds :
  hit ∈ collection -> passes_cut hit = true ->
  bounds ∈ layer_bounds -> reads_past hit bounds ->
  collect_layers collection layer_bounds = Undefined.
Proof.
  intros [i Hhit]%list_elem_of_lookup_1 Hcut [k Hk]%list_elem_of_lookup_1 Hpast.
  unfold collect_layers, GetSize, GetHit, for_range.
  apply (for_from_Undefined_somewhere 0 _ _ _ i).
  - intros i' layers exn. unfold at_index.
    destruct (collection !! i') as [hit'|]; simpl; [|done].
    destruct (passes_cut hit'); [|done].
    apply for_from_never_throws. intros k' layers'. apply layer_step_never_throws.
  - apply lookup_lt_Some in Hhit. lia.
  - intros layers. rewrite (at_index_Some _ _ _ Hhit), bind_Returns, Hcut.
    apply (for_from_Undefined_somewhere 0 _ _ _ k).
    + intros k' layers' exn. apply layer_step_never_throws.
    + apply lookup_lt_Some in Hk. lia.
    + intros layers'. by rewrite (in_layer_reads_past _ _ _ bounds).
Qed.

(** X9. The bounds are read without a check: when a hit of the collection
    passes the test of the cut and an entry of the layer bounds is empty, or
    holds one value only and that value is below the position-y of the hit,
    the call reads outside that entry, whatever the other hits and entries
    are. *)
Theorem cut_reads_past_bounds (collection : HitCollection)
    (layer_bounds : list (list double)) (name_map : string -> outcome double)
    (hit : Hit) (bounds : list double) :
  hit ∈ collection -> passes_cut hit = true ->
  bounds ∈ layer_bounds -> reads_past hit bounds ->
  _convert_to_cut_analysis collection layer_bounds name_map = Undefined.
Proof.
  intros Hhit Hcut Hbounds Hpast. unfold _convert_to_cut_analysis.
  rewrite empty_columns_returns, bind_Returns.
  by rewrite (collect_layers_reads_past _ _ hit bounds).
Qed.

Lemma cut_reads_past_bounds_witness :
  _convert_to_cut_analysis two_layers [[7000; 7010]; [7000]]
    (fun id => mret (lookup_or_minus_1 sample_map id)) = Undefined.
Proof.
  apply (cut_reads_past_bounds two_layers [[7000; 7010]; [7000]] _
           (sample_hit "1" 0.75 7005) [7000]).
  - unfold two_layers. left.
  - reflexivity.
  - right. left.
  - reflexivity.
Defined.

Lemma collect_layers_none_passing (collection : HitCollection) layer_bounds :
  passing collection = [] ->
  collect_layers collection layer_bounds = Returns [].
Proof.
  intros Hnone. unfold collect_layers, GetSize, GetHit.
  destruct (for_range_invariant (fun _ (layers : list double) => layers = [])
    (length collection)
    (fun i tracker_layers =>
      hit ← at_index collection i;
      if passes_cut hit
      then
        for_range (length layer_bounds) (fun k tracker_layers =>
          inside ← in_layer hit layer_bounds k;
          if inside : bool
          then mret (push_back tracker_layers (to_double (Z.of_nat k)))
          else mret tracker_layers) tracker_layers
      else mret tracker_layers) []) as (layers & Hrun & ->); [done| |done].
  intros i layers Hi ->.
  destruct (lookup_lt_is_Some_2 collection i) as [hit Hhit]; [done|].
  rewrite (at_index_Some _ _ _ Hhit), bind_Returns.
  destruct (passes_cut hit) eqn:Hcut; [|by eexists].
  assert (hit ∈ passing collection) as Hin.
  { apply list_elem_of_filter. split; [done|]. by eapply list_elem_of_lookup_2. }
  rewrite Hnone in Hin. by apply elem_of_nil in Hin.
Qed.

(** X10. When no hit of the collection passes the test of the cut, the layer
    bounds are not read and the mapping is not called: the call returns the
    14 empty columns for every list of bounds, well formed or not, and every
    mapping. *)
Theorem cut_without_passing_hit (collection : HitCollection)
    (layer_bounds : list (list double)) (name_map : string -> outcome double) :
  passing collection = [] ->
  _convert_to_cut_analysis collection layer_bounds name_map
  = Returns (replicate 14 []).
Proof.
  intros Hnone. unfold _convert_to_cut_analysis.
  rewrite empty_columns_returns, bind_Returns.
  by rewrite (collect_layers_none_passing _ _ Hnone).
Qed.

Lemma cut_without_passing_hit_witness :
  _convert_to_cut_analysis
    [sample_hit "Layer1" 0.25 7005; sample_hit "Layer2" 0.75 15]
    [[]; [7000]] (fun _ => Throws invalid_argument)
  = Returns (replicate 14 []).
Proof.
  apply (cut_without_passing_hit
           [sample_hit "Layer1" 0.25 7005; sample_hit "Layer2" 0.75 15]).
  reflexivity.
Defined.

(** X11. The decision of the cut grows with the collection: a collection
    that holds every hit of a collection reaching at least 3 layers reaches
    at least as many, so it is exported whole, in whatever order its hits
    are. *)
Theorem cut_accepts_supersets (collection collection' : HitCollection)
    (layer_bounds : list (list double)) (name_map : string -> outcome double) :
  intervals layer_bounds ->
  (Z.of_nat (length layer_bounds) <= 2 ^ 53)%Z ->
  (forall hit, hit ∈ collection -> hit ∈ collection') ->
  (3 <= length (layers_reached collection layer_bounds))%nat ->
  (length (layers_reached collection layer_bounds)
   <= length (layers_reached collection' layer_bounds))%nat
  ∧ _convert_to_cut_analysis collection' layer_bounds name_map
    = _convert_to_analysis collection' name_map.
Proof.
  intros Hbounds Hsize Hsub Hthree.
  assert (length (layers_reached collection layer_bounds)
          <= length (layers_reached collection' layer_bounds))%nat as Hle.
  { apply submseteq_length, NoDup_submseteq; [apply NoDup_layers_reached|].
    intros k. by apply layers_reached_subseteq. }
  split; [done|].
  rewrite (cut_decision _ _ _ Hbounds (index_exact_below _ Hsize)).
  rewrite bool_decide_eq_true_2; [done|lia].
Qed.

Lemma cut_accepts_supersets_witness :
  _convert_to_cut_analysis
    (sample_hit "9" 0.25 5 :: reverse (two_layers ++ [third_layer])) sample_bounds
    sample_stold
  = _convert_to_analysis
      (sample_hit "9" 0.25 5 :: reverse (two_layers ++ [third_layer])) sample_stold.
Proof.
  apply (cut_accepts_supersets (two_layers ++ [third_layer])
           (sample_hit "9" 0.25 5 :: reverse (two_layers ++ [third_layer]))
           sample_bounds sample_stold).
  - exact intervals_sample_bounds.
  - simpl. lia.
  - intros hit Hhit. right. by apply elem_of_reverse.
  - vm_compute. lia.
Defined.

(** X12. With fewer than 3 intervals no event is exported: the call returns
    the 14 empty columns for every collection. *)
Theorem cut_needs_three_intervals (collection : HitCollection)
    (layer_bounds : list (list double)) (name_map : string -> outcome double) :
  intervals layer_bounds ->
  (length layer_bounds < 3)%nat ->
  _convert_to_cut_analysis collection layer_bounds name_map
  = Returns (replicate 14 []).
Proof.
  intros Hbounds Hfew.
  rewrite (cut_decision _ _ _ Hbounds) by (apply index_exact_below; lia).
  rewrite bool_decide_eq_false_2; [done|].
  unfold layers_reached.
  pose proof (length_filter
    (fun k => Exists (fun hit => reaches layer_bounds hit k = true) collection)
    (seq 0 (length layer_bounds))) as Hfilter.
  rewrite length_seq in Hfilter. lia.
Qed.

Lemma cut_needs_three_intervals_witness :
  _convert_to_cut_analysis (two_layers ++ [third_layer]) [[7000; 7010]; [7010; 7030]]
    sample_stold
  = Returns (replicate 14 []).
Proof.
  apply (cut_needs_three_intervals (two_layers ++ [third_layer])
           [[7000; 7010]; [7010; 7030]] sample_stold).
  - repeat constructor.
  - simpl. lia.
Defined.

Lemma reaches_inside layer_bounds hit k :
  reaches layer_bounds hit k = true ->
  passes_cut hit = true
  ∧ exists lower upper rest,
      layer_bounds !! k = Some (lower :: upper :: rest)
      ∧ (lower <? y (GetPosition hit)) = true
      ∧ (y (GetPosition hit) <? upper) = true.
Proof.
  rewrite reaches_passes_cut. intros [Hcut Hinside]%andb_true_iff. split; [done|].
  destruct (layer_bounds !! k) as [[|lower [|upper rest]]|]; try done.
  apply andb_true_iff in Hinside as [Hlower Hupper]. by exists lower, upper, rest.
Qed.

Lemma hit_layers_at_most_one layer_bounds hit :
  disjoint_layers layer_bounds -> (length (hit_layers layer_bounds hit) <= 1)%nat.
Proof.
  intros Hdisjoint.
  assert (NoDup (hit_layers layer_bounds hit)) as Hnodup
    by apply NoDup_filter, NoDup_seq.
  assert (forall k k', k ∈ hit_layers layer_bounds hit ->
            k' ∈ hit_layers layer_bounds hit -> k = k') as Hsame.
  { intros k k' [_ Hk]%elem_of_hit_layers [_ Hk']%elem_of_hit_layers.
    apply reaches_inside in Hk as (_ & lower & upper & rest & Hbound & Hlower & Hupper).
    apply reaches_inside in Hk'
      as (_ & lower' & upper' & rest' & Hbound' & Hlower' & Hupper').
    destruct (decide (k = k')) as [|Hne]; [done|].
    destruct (Hdisjoint k k' _ _ _ _ _ _ Hne Hbound Hbound') as [Hfalse|Hfalse].
    - by rewrite (ltb_trans _ _ _ Hlower Hupper') in Hfalse.
    - by rewrite (ltb_trans _ _ _ Hlower' Hupper) in Hfalse. }
  destruct (hit_layers layer_bounds hit) as [|k [|k' layers]]; simpl; [lia|lia|].
  apply NoDup_cons in Hnodup as [Hnotin _].
  destruct Hnotin. rewrite (Hsame k k'); [left|left|right; left].
Qed.

Lemma length_layers_pushed (collection : HitCollection) layer_bounds :
  disjoint_layers layer_bounds ->
  (length (collection ≫= hit_layers layer_bounds) <= length (passing collection))%nat.
Proof.
  intros Hdisjoint. unfold passing.
  induction collection as [|hit collection IH]; [done|].
  rewrite bind_cons, length_app, filter_cons.
  destruct (passes_cut hit) eqn:Hcut.
  - rewrite decide_True by done. simpl.
    pose proof (hit_layers_at_most_one layer_bounds hit Hdisjoint). lia.
  - rewrite decide_False by done. by rewrite hit_layers_fails_cut.
Qed.

Lemma length_layers_reached (collection : HitCollection) layer_bounds :
  (length (layers_reached collection layer_bounds)
   <= length (collection ≫= hit_layers layer_bounds))%nat.
Proof.
  apply submseteq_length, NoDup_submseteq; [apply NoDup_layers_reached|].
  intros k. by rewrite elem_of_layers_reached.
Qed.

(** X13. When no two of the intervals overlap, a hit lies in at most one of
    them, so the layers reached are at most as many as the hits that pass
    the test of the cut: a collection with fewer than 3 such hits is
    rejected. *)
Theorem cut_needs_three_hits (collection : HitCollection)
    (layer_bounds : list (list double)) (name_map : string -> outcome double) :
  intervals layer_bounds ->
  (Z.of_nat (length layer_bounds) <= 2 ^ 53)%Z ->
  disjoint_layers layer_bounds ->
  (length (layers_reached collection layer_bounds) <= length (passing collection))%nat
  ∧ ((length (passing collection) < 3)%nat ->
     _convert_to_cut_analysis collection layer_bounds name_map
     = Returns (replicate 14 [])).
Proof.
  intros Hbounds Hsize Hdisjoint.
  pose proof (length_layers_reached collection layer_bounds) as Hreached.
  pose proof (length_layers_pushed collection layer_bounds Hdisjoint) as Hpushed.
  split; [lia|]. intros Hfew.
  rewrite (cut_decision _ _ _ Hbounds (index_exact_below _ Hsize)).
  rewrite bool_decide_eq_false_2; [done|lia].
Qed.

Lemma disjoint_sample_bounds : disjoint_layers sample_bounds.
Proof.
  intros i j lower upper rest lower' upper' rest' Hne Hi Hj.
  destruct i as [|[|[|i]]], j as [|[|[|j]]]; try done;
    injection Hi as <- <- <-; injection Hj as <- <- <-;
    (by left) || (by right).
Qed.

Lemma cut_needs_three_hits_witness :
  (length (layers_reached two_layers sample_bounds) <= length (passing two_layers))%nat
  ∧ _convert_to_cut_analysis two_layers sample_bounds sample_stold
    = Returns (replicate 14 []).
Proof.
  destruct (cut_needs_three_hits two_layers sample_bounds sample_stold)
    as [Hle Hreject].
  - exact intervals_sample_bounds.
  - simpl. lia.
  - exact disjoint_sample_bounds.
  - split; [exact Hle|]. apply Hreject. vm_compute. lia.
Defined.

End CutMore.

(** ** More on the tables *)

Module TableMore.

Import Analysis.ROOT Tracking Tables Cut Samples TableFacts CutFacts.

Local Open Scope float_scope.

(** X14. The conversion ends with the exception of the first hit whose
    chamber id the parser rejects, and returns no table: so does
    [ConvertToAnalysis(collection)], so does the cut entry point with
    [savecut] false, and with [savecut] true when the event is accepted. *)
Theorem ConvertToAnalysis_hits_throws (stold : string -> outcome double)
    (numeric : string -> double) (collection : HitCollection)
    (layer_bounds : list (list double)) (i : nat) (hit : Hit) (exn : exception) :
  collection !! i = Some hit ->
  stold (GetChamberID hit) = Throws exn ->
  (forall hit', hit' ∈ take i collection ->
     stold (GetChamberID hit') = Returns (numeric (GetChamberID hit'))) ->
  ConvertToAnalysis_hits stold collection = Throws exn
  ∧ ConvertToAnalysis_cut stold collection layer_bounds false = Throws exn
  ∧ (intervals layer_bounds ->
     (Z.of_nat (length layer_bounds) <= 2 ^ 53)%Z ->
     (3 <= length (layers_reached collection layer_bounds))%nat ->
     ConvertToAnalysis_cut stold collection layer_bounds true = Throws exn).
Proof.
  intros Hhit Hthrows Hbefore.
  assert (_convert_to_analysis collection (fun id => stold id) = Throws exn) as Hrun
    by (by apply (convert_to_analysis_throws _ numeric _ i hit)).
  split; [exact Hrun|]. split; [exact Hrun|].
  intros Hbounds Hsize Hthree. unfold ConvertToAnalysis_cut.
  rewrite (cut_decision _ _ _ Hbounds (index_exact_below _ Hsize)).
  by rewrite bool_decide_eq_true_2.
Qed.

Lemma ConvertToAnalysis_hits_throws_witness :
  ConvertToAnalysis_hits sample_stold
    [sample_hit "1" 0.75 7005; sample_hit "Layer1" 0.75 7015; sample_hit "x" 0.75 7025]
  = Throws invalid_argument.
Proof.
  destruct (ConvertToAnalysis_hits_throws sample_stold (lookup_or_minus_1 sample_map)
    [sample_hit "1" 0.75 7005; sample_hit "Layer1" 0.75 7015; sample_hit "x" 0.75 7025]
    sample_bounds 1 (sample_hit "Layer1" 0.75 7015) invalid_argument)
    as [Hthrows _].
  - reflexivity.
  - reflexivity.
  - intros hit' Hhit'. apply list_elem_of_singleton in Hhit' as ->. reflexivity.
  - exact Hthrows.
Defined.

Lemma table_app column_count (rows rows' : list (list double)) :
  table column_count (rows ++ rows')
  = zip_with (++) (table column_count rows) (table column_count rows').
Proof.
  unfold table. rewrite zip_with_fmap_l, zip_with_fmap_r, zip_with_diag.
  apply list_fmap_ext. intros _ j _. by rewrite fmap_app.
Qed.

(** X15. Converting two collections one after the other and joining the
    tables column by column gives the table of the joined collection. *)
Theorem convert_to_analysis_app (collection collection' : HitCollection)
    (name_map : string -> outcome double) (numeric : string -> double) :
  (forall hit, hit ∈ collection ++ collection' ->
     name_map (GetChamberID hit) = Returns (numeric (GetChamberID hit))) ->
  exists out out',
    _convert_to_analysis collection name_map = Returns out
    ∧ _convert_to_analysis collection' name_map = Returns out'
    ∧ _convert_to_analysis (collection ++ collection') name_map
      = Returns (zip_with (++) out out').
Proof.
  intros Hmap. exists (hit_table numeric collection), (hit_table numeric collection').
  split; [|split].
  - apply convert_to_analysis_returns. intros hit Hhit. apply Hmap, elem_of_app. by left.
  - apply convert_to_analysis_returns. intros hit Hhit. apply Hmap, elem_of_app. by right.
  - rewrite (convert_to_analysis_returns _ numeric) by done.
    unfold hit_table. by rewrite fmap_app, table_app.
Qed.

Lemma convert_to_analysis_app_witness :
  exists out out',
    _convert_to_analysis two_layers sample_stold = Returns out
    ∧ _convert_to_analysis [third_layer] sample_stold = Returns out'
    ∧ _convert_to_analysis (two_layers ++ [third_layer]) sample_stold
      = Returns (zip_with (++) out out').
Proof.
  apply (convert_to_analysis_app two_layers [third_layer] sample_stold
           (lookup_or_minus_1 sample_map)).
  intros hit Hhit. unfold two_layers, third_layer in Hhit.
  repeat (apply elem_of_cons in Hhit as [->|Hhit]; [reflexivity|]).
  by apply elem_of_nil in Hhit.
Defined.

Lemma extra_returns (extra : list (list double)) :
  (16 <= length extra)%nat -> ConvertToAnalysis_extra extra = Returns (take 16 extra).
Proof.
  intros Hlen. unfold ConvertToAnalysis_extra.
  rewrite (extra_empty_loop _ Hlen), bind_Returns. by apply extra_copy_all.
Qed.

(** X16. Converting the extra block twice is converting it once: the table
    returned for at least 16 columns is converted to itself. *)
Theorem ConvertToAnalysis_extra_idempotent (extra : list (list double)) :
  (16 <= length extra)%nat ->
  exists out,
    ConvertToAnalysis_extra extra = Returns out
    ∧ ConvertToAnalysis_extra out = Returns out.
Proof.
  intros Hlen. exists (take 16 extra). split; [by apply extra_returns|].
  rewrite extra_returns by (rewrite length_take; lia).
  by rewrite take_take, Nat.min_id.
Qed.

Lemma ConvertToAnalysis_extra_idempotent_witness :
  exists out,
    ConvertToAnalysis_extra sample_extra = Returns out
    ∧ ConvertToAnalysis_extra out = Returns out.
Proof. apply (ConvertToAnalysis_extra_idempotent sample_extra). simpl. lia. Defined.

Section Particles.

Variables pT eta phi : Vec4 -> double.

Lemma particles_return (particles : GenParticleVector) (saveall : bool) :
  ConvertToAnalysis_particles pT eta phi particles saveall
  = Returns (table 20 (particle_row pT eta phi <$> selected saveall particles)).
Proof.
  unfold ConvertToAnalysis_particles.
  rewrite select_loop, bind_Returns, empty_columns_returns, bind_Returns.
  apply particle_loop.
Qed.

Lemma transported_idempotent (particles : GenParticleVector) :
  transported (transported particles) = transported particles.
Proof.
  unfold transported. induction particles as [|particle particles IH]; [done|].
  rewrite filter_cons. case_decide as Hkeep; [|done].
  by rewrite filter_cons, decide_True, IH.
Qed.

(** X17. Without [saveall] the conversion is the conversion, with
    [saveall], of the particles whose transported-link index is not
    negative; on such a list the flag makes no difference. *)
Theorem ConvertToAnalysis_particles_filter (particles : GenParticleVector) :
  ConvertToAnalysis_particles pT eta phi particles false
    = ConvertToAnalysis_particles pT eta phi (transported particles) true
  ∧ ConvertToAnalysis_particles pT eta phi (transported particles) false
    = ConvertToAnalysis_particles pT eta phi (transported particles) true.
Proof.
  rewrite !particles_return. unfold selected. by rewrite transported_idempotent.
Qed.

End Particles.

End TableMore.

(** ** Printing a vector *)

Module PrintingFacts.

Import Printing MoreSpec SettingsMore.

Lemma append_nil_r (s : string) : s +:+ "" = s.
Proof.
  induction s as [|c s IH]; [done|].
  cbv [String.append]. fold String.append. by rewrite IH.
Qed.

Lemma separated_snoc (l : list string) (s : string) :
  separated (l ++ [s]) = separated l +:+ s +:+ ", ".
Proof.
  induction l as [|s' l IH]; simpl.
  - by rewrite append_nil_r.
  - by rewrite IH, !append_assoc.
Qed.

Lemma joined_snoc (l : list string) (s : string) :
  joined (l ++ [s]) = separated l +:+ s.
Proof.
  induction l as [|s' l IH]; [done|].
  change ((s' :: l) ++ [s]) with (s' :: (l ++ [s])).
  cbn [joined separated]. rewrite IH, !append_assoc.
  by destruct l.
Qed.

Lemma size_t_sub_1 (n : N) : (0 < n < 2 ^ 64)%N -> size_t_sub n 1 = (n - 1)%N.
Proof.
  intros Hn. unfold size_t_sub, size_t_max.
  replace (n + 2 ^ 64 - 1)%N with ((n - 1) + 1 * 2 ^ 64)%N by lia.
  rewrite N.Div0.mod_add. apply N.mod_small. lia.
Qed.

Section Stream.

Variable show : double -> string.

(** X18. A vector of fewer than [2^31] doubles is printed as an opening
    bracket, its elements in order with a comma and a blank between two of
    them and none behind the last, a closing bracket and a line feed; the
    empty vector as the two brackets. *)
Theorem print_vector_joined (os : string) (v : list double) :
  (N.of_nat (length v) < 2 ^ 31)%N ->
  print_vector show os v
  = Returns (os +:+ "[" +:+ joined (show <$> v) +:+ "]" +:+ Rendering.LF).
Proof.
  intros Hsize. unfold print_vector. rewrite bool_decide_eq_false_2 by lia.
  destruct (for_range_invariant
    (fun i out =>
       out = (os +:+ "[")
             +:+ (if decide (i < length v) then separated (show <$> take i v)
                  else joined (show <$> v)))
    (length v)
    (fun i os =>
       value ← at_index v i;
       let os := os +:+ show value in
       if bool_decide (N.of_nat i ≠ size_t_sub (N.of_nat (length v)) 1)
       then mret (os +:+ ", ")
       else mret os) (os +:+ "[")) as (out & Hrun & ->).
  - destruct v; simpl; by rewrite append_nil_r.
  - intros i out Hi ->.
    destruct (lookup_lt_is_Some_2 v i) as [value Hvalue]; [done|].
    rewrite (at_index_Some _ _ _ Hvalue), bind_Returns. cbv zeta.
    rewrite decide_True by done.
    rewrite size_t_sub_1 by lia.
    destruct (decide (S i < length v)) as [Hmore|Hlast].
    + rewrite bool_decide_eq_true_2 by lia. eexists. split; [done|].
      rewrite (take_S_r _ _ _ Hvalue), fmap_app.
      change (show <$> [value]) with [show value].
      by rewrite separated_snoc, !append_assoc.
    + rewrite bool_decide_eq_false_2 by lia. eexists. split; [done|].
      assert (show <$> v = (show <$> take i v) ++ [show value]) as ->.
      { rewrite <- (take_ge v (S i)) at 1 by lia.
        by rewrite (take_S_r _ _ _ Hvalue), fmap_app. }
      by rewrite joined_snoc, !append_assoc.
  - cbv zeta in Hrun. rewrite Hrun, bind_Returns. rewrite decide_False by lia.
    unfold mret, outcome_ret. by rewrite !append_assoc.
Qed.

End Stream.

Lemma print_vector_joined_witness :
  print_vector (fun value => if PrimFloat.eqb value 1 then "1" else "2.5") "v = "
    [1%float; 2.5%float; 1%float]
  = Returns ("v = [1, 2.5, 1]" +:+ Rendering.LF).
Proof.
  apply (print_vector_joined
           (fun value => if PrimFloat.eqb value 1 then "1" else "2.5") "v = "
           [1%float; 2.5%float; 1%float]).
  vm_compute. reflexivity.
Defined.

End PrintingFacts.
